(** * Seren Capture backend: capture orchestration and image storage

    A shallow embedding of [src/services/imageStorage.js] and
    [src/services/captureService.js], with the properties of the
    specification stated and proved over it.

    Conventions of the embedding.
    - A JavaScript exception is a value [Thrown (Error msg)]; every
      [throw new Error(...)] of the source appears with its literal message.
    - A method that mutates [this] is a function from the state before to an
      outcome and the state after.
    - What the source obtains from outside the two services (the crypto and
      image libraries, the clock, random identifiers, the success of a file
      write) is an explicit argument: a [Runtime] record for the pure library
      functions, and one argument per reading of the clock or of the random
      source.
    - An instant ([new Date()]) is its number of milliseconds since the epoch;
      [toISOString] followed by [new Date(...)] is the identity on those.
    - A string is the sequence of its UTF-8 bytes. *)

From Stdlib Require Import ZArith Lia Floats Uint63.
From Stdlib.Strings Require Import Byte Ascii.
From stdpp Require Import gmap strings list fin_maps pretty sorting.

Open Scope Z_scope.

(** ** JavaScript values shared by the two services *)

(** A Node [Buffer]. *)
Abbreviation Buffer := (list byte).

#[global] Instance byte_eq_decision : EqDecision byte := byte_eq_dec.

(** [buf.length] *)
Definition buf_length (b : Buffer) : Z := Z.of_nat (length b).

(** [buf.slice(from, to)] for [0 <= from <= to]. *)
Definition slice (from to : nat) (b : Buffer) : Buffer :=
  take (to - from)%nat (drop from b).

(** [buf.slice(from)] *)
Definition slice_from (from : nat) (b : Buffer) : Buffer := drop from b.

(** [Buffer.from(s, 'utf8')] *)
Definition buffer_from_utf8 (s : string) : Buffer := String.list_byte_of_string s.

(** [new Error(message)] *)
Inductive JsError : Type := Error (message : string).

Definition message (e : JsError) : string := let 'Error m := e in m.

#[global] Instance JsError_eq_decision : EqDecision JsError.
Proof. solve_decision. Defined.

(** The result of running a piece of code: a value, or a thrown exception. *)
Inductive Outcome (A : Type) : Type :=
| Returned (a : A)
| Thrown (e : JsError).
Arguments Returned {A} a.
Arguments Thrown {A} e.

Definition succeeded {A} (o : Outcome A) : bool :=
  match o with Returned _ => true | Thrown _ => false end.

(** [try { body } catch (error) { throw new Error(msg) }] *)
Definition catch_rethrow_as {A} (msg : string) (body : Outcome A) : Outcome A :=
  match body with
  | Returned a => Returned a
  | Thrown _ => Thrown (Error msg)
  end.

(** [try { body } catch (error) { console.error(...); throw error }] *)
Definition catch_rethrow {A} (body : Outcome A) : Outcome A :=
  match body with
  | Returned a => Returned a
  | Thrown e => Thrown e
  end.

(** The resident identity returned by the directory client. *)
Record ResidentInfo : Type := {
  res_id : string;
  res_name : string;
  res_unitNumber : string;
  res_phone : string;
  res_email : string
}.

(** ** Image storage engine ([imageStorage.js]) *)
Module ImageStorage.

(** The library functions the engine calls. [None] stands for a call that
    throws.
    - [gcm_seal key iv aad plaintext] is the sequence
      [createCipherGCM; setAAD; update; final; getAuthTag] of [encryptImage]
      and gives the ciphertext and the authentication tag;
    - [gcm_open key iv aad tag ciphertext] is the sequence
      [createDecipherGCM; setAAD; setAuthTag; update; final] of
      [decryptImage]; it throws when the tag does not verify;
    - [sharp_metadata] gives the width and height of the decoded image;
    - [sharp_jpeg resize quality input] is the (optionally resized to fit
      1920x1080, never enlarged) progressive mozjpeg encoding;
    - [sha256_hex] is the hex SHA-256 digest;
    - [toISOString] renders an instant. *)
Record Runtime : Type := {
  gcm_seal : Buffer -> Buffer -> Buffer -> Buffer -> option (Buffer * Buffer);
  gcm_open : Buffer -> Buffer -> Buffer -> Buffer -> Buffer -> option Buffer;
  sharp_metadata : Buffer -> option (Z * Z);
  sharp_jpeg : bool -> Z -> Buffer -> option Buffer;
  sha256_hex : Buffer -> string;
  toISOString : Z -> string
}.

(** The two cipher calls as [node:crypto] has them. The module exports
    [createCipheriv] and [createDecipheriv] and no [createCipherGCM] or
    [createDecipherGCM]: [crypto.createCipherGCM(...)] and
    [crypto.createDecipherGCM(...)] throw a [TypeError] (not a function),
    inside the [try] of [encryptImage] and [decryptImage], before a byte is
    sealed or opened. *)
Class NodeCrypto (rt : Runtime) : Prop := {
  createCipherGCM_throws : forall key iv aad p, gcm_seal rt key iv aad p = None;
  createDecipherGCM_throws : forall key iv aad t c, gcm_open rt key iv aad t c = None
}.

(** The fields set by the constructor. [encryptionKey] is the key after
    [Buffer.from(this.encryptionKey, 'base64')]. *)
Record Config : Type := {
  storageDir : string;
  encryptionKey : Buffer;
  compressionQuality : Z;
  maxFileSize : Z
}.

(** The [metadata] argument of [storeImage], as [processCapture] builds it. *)
Record StoreRequest : Type := {
  req_residentInfo : ResidentInfo;
  req_captureType : string;
  req_timestamp : Z;
  req_sessionId : string;
  req_otp : string
}.

(** The snapshot of the resident kept in a metadata record. *)
Record ResidentSnapshot : Type := {
  snap_id : string;
  snap_name : string;
  snap_unitNumber : string
}.

(** The persisted metadata record ([imageMetadata]). *)
Record ImageMetadata : Type := {
  id : string;
  filename : string;
  filePath : string;
  captureType : string;
  timestamp : Z;
  residentInfo : ResidentSnapshot;
  fileSize : Z;
  originalSize : Z;
  compressionRatio : float;
  checksum : string
}.

(** The value [storeImage] resolves to. *)
Record StoreResult : Type := {
  success : bool;
  fileId : string;
  sr_filename : string;
  sr_filePath : string;
  metadata : ImageMetadata
}.

(** The storage directory: image files by path, metadata files by path. *)
Record Disk : Type := {
  files : gmap string Buffer;
  jsonFiles : gmap string ImageMetadata
}.

Definition empty_disk : Disk := {| files := ∅; jsonFiles := ∅ |}.

(** What one call of [storeImage] draws from outside: the [uuidv4()], the
    [crypto.randomBytes(16)], and, for each of the two writes, the error the
    file system raises, if any. *)
Record StoreEnv : Type := {
  env_uuid : string;
  env_iv : Buffer;
  env_writeFile_error : option JsError;
  env_writeJson_error : option JsError
}.

(** [s.endsWith(suffix)] *)
Fixpoint ends_with (suffix s : string) : bool :=
  bool_decide (s = suffix)
  || match s with
     | EmptyString => false
     | String _ rest => ends_with suffix rest
     end.

(** *** [path.join] (POSIX) *)

(** [path.split('/')] *)
Fixpoint segments (path : string) : list string :=
  match path with
  | EmptyString => [EmptyString]
  | String c rest =>
      if decide (c = "/"%char) then EmptyString :: segments rest
      else match segments rest with
           | [] => [String c EmptyString]
           | seg :: segs => String c seg :: segs
           end
  end.

(** One turn of the loop of [normalizeString], with the segments kept so far,
    the last one first: an empty segment and [.] are dropped, [..] removes the
    segment before it, and is itself kept only where there is none to remove
    and the path is relative. *)
Definition push_segment (allowAboveRoot : bool) (kept : list string) (seg : string)
  : list string :=
  if decide (seg = "") then kept
  else if decide (seg = ".") then kept
  else if decide (seg = "..") then
    match kept with
    | last :: before =>
        if decide (last = "..") then (if allowAboveRoot then ".." :: kept else kept)
        else before
    | [] => if allowAboveRoot then [".."] else kept
    end
  else seg :: kept.

(** [segs.join('/')] *)
Fixpoint join_slash (segs : list string) : string :=
  match segs with
  | [] => ""
  | [s] => s
  | s :: rest => s +:+ "/" +:+ join_slash rest
  end.

Definition starts_with_slash (s : string) : bool :=
  match s with
  | String c _ => bool_decide (c = "/"%char)
  | EmptyString => false
  end.

(** [path.normalize(path)] *)
Definition normalize (path : string) : string :=
  if decide (path = "") then "."
  else
    let isAbsolute := starts_with_slash path in
    let trailingSeparator := ends_with "/" path in
    let normalized :=
      join_slash (reverse (foldl (push_segment (negb isAbsolute)) [] (segments path))) in
    if decide (normalized = "") then
      if isAbsolute then "/" else if trailingSeparator then "./" else "."
    else
      (if isAbsolute then "/" else "") +:+ normalized
      +:+ (if trailingSeparator then "/" else "").

(** [path.join(a, b, ...)]: the non-empty arguments joined by [/], then
    normalised. *)
Definition path_join (args : list string) : string :=
  match filter (fun arg : string => arg <> "") args with
  | [] => "."
  | parts => normalize (join_slash parts)
  end.

(** [str.replace(/[:.]/g, '-')] *)
Fixpoint replace_colon_dot (s : string) : string :=
  match s with
  | EmptyString => EmptyString
  | String c rest =>
      String (if decide (c = ":"%char) then "-"%char
              else if decide (c = "."%char) then "-"%char else c)
             (replace_colon_dot rest)
  end.

(** A JavaScript number holding a size. *)
Definition number_of_size (n : Z) : float := PrimFloat.of_uint63 (Uint63.of_Z n).

(** The rest of [s] after [prefix], when [s] starts with it. *)
Fixpoint strip_prefix (prefix s : string) : option string :=
  match prefix with
  | EmptyString => Some s
  | String c prefix' =>
      match s with
      | EmptyString => None
      | String c' s' => if decide (c = c') then strip_prefix prefix' s' else None
      end
  end.

(** [s.includes(c)] for one character. *)
Fixpoint contains_char (c : ascii) (s : string) : bool :=
  match s with
  | EmptyString => false
  | String c' rest => bool_decide (c = c') || contains_char c rest
  end.

(** A path segment that [path.join] keeps as it is: it is not empty, holds no
    slash, and is neither [.] nor [..]. *)
Definition plain_segment (s : string) : Prop :=
  contains_char "/" s = false ∧ s <> "" ∧ s <> "." ∧ s <> "..".

(** What one call of [deleteImage] draws from outside: the error each of the
    two [fs.remove] calls raises, if any. ([fs.remove] of a path that does
    not exist succeeds.) *)
Record DeleteEnv : Type := {
  env_removeFile_error : option JsError;
  env_removeJson_error : option JsError
}.

(** The object [getStorageStats] resolves to. *)
Record StorageStats : Type := {
  totalImages : Z;
  totalSize : Z;
  personImages : Z;
  vehicleImages : Z;
  oldestImage : option Z;
  newestImage : option Z
}.

(** The variables of the loop of [getStorageStats]. *)
Record StatsLoop : Type := {
  stats : StorageStats;
  oldestDate : option Z;
  newestDate : option Z
}.

(** The comparator [(a, b) => new Date(b.timestamp) - new Date(a.timestamp)]
    puts [a] before [b] when it is not older. *)
Definition newest_first (a b : ImageMetadata) : Prop := timestamp b <= timestamp a.

(** The sum of the [fileSize] fields of some records. *)
Definition sum_file_sizes (l : list ImageMetadata) : Z :=
  foldr (fun md n => fileSize md + n) 0 l.

(** The variables of the loop of [getStorageStats] describe the records
    [seen] so far. *)
Definition stats_agree (acc : StatsLoop) (seen : list ImageMetadata) : Prop :=
  totalImages (stats acc) = Z.of_nat (length seen)
  ∧ totalSize (stats acc) = sum_file_sizes seen
  ∧ personImages (stats acc)
    = Z.of_nat (length (filter (fun md => captureType md = "person") seen))
  ∧ vehicleImages (stats acc)
    = Z.of_nat (length (filter (fun md => captureType md = "vehicle") seen))
  ∧ oldestDate acc = oldestImage (stats acc)
  ∧ newestDate acc = newestImage (stats acc)
  ∧ match oldestImage (stats acc) with
    | None => seen = []
    | Some t => (∃ md, md ∈ seen ∧ timestamp md = t) ∧ ∀ md, md ∈ seen → t <= timestamp md
    end
  ∧ match newestImage (stats acc) with
    | None => seen = []
    | Some t => (∃ md, md ∈ seen ∧ timestamp md = t) ∧ ∀ md, md ∈ seen → timestamp md <= t
    end.

#[global] Instance newest_first_dec : RelDecision newest_first.
Proof. intros a b. unfold newest_first. apply _. Defined.

Section Engine.
Context (cfg : Config) (rt : Runtime).

Definition aad : Buffer := buffer_from_utf8 "seren-capture".

(** [processImage(imageBuffer)] *)
Definition processImage (imageBuffer : Buffer) : Outcome Buffer :=
  catch_rethrow_as "Failed to process image"
    match sharp_metadata rt imageBuffer with
    | None => Thrown (Error "sharp: unsupported image format")
    | Some (width, height) =>
        let resize := (1920 <? width) || (1080 <? height) in
        match sharp_jpeg rt resize (compressionQuality cfg) imageBuffer with
        | None => Thrown (Error "sharp: encoding failed")
        | Some out => Returned out
        end
    end.

(** [encryptImage(imageBuffer)], with [iv] the result of
    [crypto.randomBytes(16)]. *)
Definition encryptImage (iv : Buffer) (imageBuffer : Buffer) : Outcome Buffer :=
  catch_rethrow_as "Failed to encrypt image"
    match gcm_seal rt (encryptionKey cfg) iv aad imageBuffer with
    | None => Thrown (Error "crypto: cipher failure")
    | Some (encrypted, authTag) => Returned (iv ++ authTag ++ encrypted)
    end.

(** [decryptImage(encryptedBuffer)] *)
Definition decryptImage (encryptedBuffer : Buffer) : Outcome Buffer :=
  catch_rethrow_as "Failed to decrypt image"
    (let iv := slice 0 16 encryptedBuffer in
     let authTag := slice 16 32 encryptedBuffer in
     let encrypted := slice_from 32 encryptedBuffer in
     match gcm_open rt (encryptionKey cfg) iv aad authTag encrypted with
     | None => Thrown (Error "Unsupported state or unable to authenticate data")
     | Some decrypted => Returned decrypted
     end).

Definition metadataPath (imageId : string) : string :=
  path_join [storageDir cfg; "metadata"; imageId +:+ ".json"].

(** [saveMetadata(metadata)] *)
Definition saveMetadata (env : StoreEnv) (md : ImageMetadata) (d : Disk)
  : Outcome unit * Disk :=
  match env_writeJson_error env with
  | Some _ => (Thrown (Error "Failed to save image metadata"), d)
  | None =>
      (Returned tt,
       {| files := files d;
          jsonFiles := <[metadataPath (id md) := md]> (jsonFiles d) |})
  end.

(** [storeImage(imageBuffer, metadata)] *)
Definition storeImage (env : StoreEnv) (imageBuffer : Buffer) (req : StoreRequest)
    (d : Disk) : Outcome StoreResult * Disk :=
  if decide (buf_length imageBuffer = 0) then
    (Thrown (Error "Image buffer is empty"), d)
  else if decide (maxFileSize cfg < buf_length imageBuffer) then
    (Thrown (Error ("Image size exceeds maximum allowed size of "
                    +:+ pretty (maxFileSize cfg) +:+ " bytes")), d)
  else
    let fileId := env_uuid env in
    let timestampStr := replace_colon_dot (toISOString rt (req_timestamp req)) in
    let filename := fileId +:+ "_" +:+ timestampStr +:+ ".jpg" in
    let subDir :=
      if decide (req_captureType req = "vehicle") then "vehicle" else "person" in
    let filePath := path_join [storageDir cfg; subDir; filename] in
    match processImage imageBuffer with
    | Thrown e => (Thrown e, d)
    | Returned processedImage =>
        match encryptImage (env_iv env) processedImage with
        | Thrown e => (Thrown e, d)
        | Returned encryptedImage =>
            match env_writeFile_error env with
            | Some e => (Thrown e, d)
            | None =>
                let d1 := {| files := <[filePath := encryptedImage]> (files d);
                             jsonFiles := jsonFiles d |} in
                let imageMetadata :=
                  {| id := fileId;
                     filename := filename;
                     filePath := filePath;
                     captureType := req_captureType req;
                     timestamp := req_timestamp req;
                     residentInfo :=
                       {| snap_id := res_id (req_residentInfo req);
                          snap_name := res_name (req_residentInfo req);
                          snap_unitNumber := res_unitNumber (req_residentInfo req) |};
                     fileSize := buf_length encryptedImage;
                     originalSize := buf_length imageBuffer;
                     compressionRatio :=
                       ((1 - number_of_size (buf_length encryptedImage)
                             / number_of_size (buf_length imageBuffer)) * 100)%float;
                     checksum := sha256_hex rt encryptedImage |} in
                match saveMetadata env imageMetadata d1 with
                | (Thrown e, d2) => (Thrown e, d2)
                | (Returned _, d2) =>
                    (Returned {| success := true;
                                 fileId := fileId;
                                 sr_filename := filename;
                                 sr_filePath := filePath;
                                 metadata := imageMetadata |}, d2)
                end
            end
        end
    end.

(** [retrieveImage(imageId)] *)
Definition retrieveImage (imageId : string) (d : Disk)
  : Outcome (Buffer * ImageMetadata) :=
  catch_rethrow_as "Failed to retrieve image"
    match jsonFiles d !! metadataPath imageId with
    | None => Thrown (Error "ENOENT: no such file or directory")
    | Some md =>
        match files d !! filePath md with
        | None => Thrown (Error "ENOENT: no such file or directory")
        | Some encryptedImage =>
            match decryptImage encryptedImage with
            | Thrown e => Thrown e
            | Returned decryptedImage => Returned (decryptedImage, md)
            end
        end
    end.

Definition metadataDir : string := path_join [storageDir cfg; "metadata"].

(** The name and the path [storeImage] gives the image file of a request. *)
Definition stored_filename (env : StoreEnv) (req : StoreRequest) : string :=
  env_uuid env +:+ "_" +:+ replace_colon_dot (toISOString rt (req_timestamp req))
  +:+ ".jpg".

Definition stored_path (env : StoreEnv) (req : StoreRequest) : string :=
  path_join [storageDir cfg;
             if decide (req_captureType req = "vehicle") then "vehicle" else "person";
             stored_filename env req].

(** [fs.readdir(metadataDir)], with the content of each file: the metadata
    files that sit directly in the directory, by name. (Sub-directories and
    files that are not metadata records are outside the model of the disk.) *)
Definition readdir_metadata (d : Disk) : list (string * ImageMetadata) :=
  omap (fun entry : string * ImageMetadata =>
          match strip_prefix (metadataDir +:+ "/") (fst entry) with
          | Some file =>
              if contains_char "/" file then None else Some (file, snd entry)
          | None => None
          end)
       (map_to_list (jsonFiles d)).

(** The entries the two scans read: those whose name ends in [.json]. *)
Definition json_entries (d : Disk) : list (string * ImageMetadata) :=
  filter (fun entry : string * ImageMetadata => ends_with ".json" (fst entry))
         (readdir_metadata d).

(** One turn of the loop of [getImagesByResident]. *)
Definition collect_image (residentId : string) (images : list ImageMetadata)
    (entry : string * ImageMetadata) : list ImageMetadata :=
  if ends_with ".json" (fst entry) then
    if decide (snap_id (residentInfo (snd entry)) = residentId)
    then images ++ [snd entry]
    else images
  else images.

(** [getImagesByResident(residentId)], with [readdir_error] the error
    [fs.readdir] raises, if any. *)
Definition getImagesByResident (readdir_error : option JsError) (residentId : string)
    (d : Disk) : Outcome (list ImageMetadata) :=
  catch_rethrow_as "Failed to retrieve resident images"
    match readdir_error with
    | Some e => Thrown e
    | None =>
        let images := foldl (collect_image residentId) [] (readdir_metadata d) in
        Returned (merge_sort newest_first images)
    end.

(** [deleteImage(imageId)] *)
Definition deleteImage (env : DeleteEnv) (imageId : string) (d : Disk)
  : Outcome bool * Disk :=
  match jsonFiles d !! metadataPath imageId with
  | None => (Thrown (Error "Failed to delete image"), d)
  | Some md =>
      match env_removeFile_error env with
      | Some _ => (Thrown (Error "Failed to delete image"), d)
      | None =>
          let d1 := {| files := delete (filePath md) (files d);
                       jsonFiles := jsonFiles d |} in
          match env_removeJson_error env with
          | Some _ => (Thrown (Error "Failed to delete image"), d1)
          | None =>
              (Returned true,
               {| files := files d1;
                  jsonFiles := delete (metadataPath imageId) (jsonFiles d1) |})
          end
      end
  end.

Definition empty_stats : StatsLoop :=
  {| stats := {| totalImages := 0; totalSize := 0; personImages := 0;
                 vehicleImages := 0; oldestImage := None; newestImage := None |};
     oldestDate := None;
     newestDate := None |}.

(** One turn of the loop of [getStorageStats]. *)
Definition count_image (acc : StatsLoop) (entry : string * ImageMetadata) : StatsLoop :=
  if ends_with ".json" (fst entry) then
    let md := snd entry in
    let st := stats acc in
    let imageDate := timestamp md in
    let older :=
      match oldestDate acc with
      | None => true
      | Some o => imageDate <? o
      end in
    let newer :=
      match newestDate acc with
      | None => true
      | Some n => n <? imageDate
      end in
    {| stats :=
         {| totalImages := totalImages st + 1;
            totalSize := totalSize st + fileSize md;
            personImages :=
              if decide (captureType md = "person") then personImages st + 1
              else personImages st;
            vehicleImages :=
              if decide (captureType md = "person") then vehicleImages st
              else if decide (captureType md = "vehicle") then vehicleImages st + 1
              else vehicleImages st;
            oldestImage := if older then Some (timestamp md) else oldestImage st;
            newestImage := if newer then Some (timestamp md) else newestImage st |};
       oldestDate := if older then Some imageDate else oldestDate acc;
       newestDate := if newer then Some imageDate else newestDate acc |}
  else acc.

(** [getStorageStats()], with [readdir_error] the error [fs.readdir] raises,
    if any. *)
Definition getStorageStats (readdir_error : option JsError) (d : Disk)
  : Outcome StorageStats :=
  catch_rethrow_as "Failed to get storage statistics"
    match readdir_error with
    | Some e => Thrown e
    | None => Returned (stats (foldl count_image empty_stats (readdir_metadata d)))
    end.

End Engine.

End ImageStorage.

(** ** Capture orchestrator ([captureService.js]) *)
Module CaptureService.

(** The descriptor recorded in [session.captures[captureType]]. *)
Record CaptureDescriptor : Type := {
  imageId : string;
  filename : string;
  timestamp : Z;
  fileSize : Z
}.

(** A session object. [captures] is the object [{person, vehicle}]: a key
    bound to [None] holds [null], an unbound key reads as [undefined].
    [mode] is [null] until a mode is selected; [updatedAt] and [completedAt]
    do not exist until they are first assigned. *)
Record Session : Type := {
  id : string;
  otp : string;
  residentInfo : ResidentInfo;
  status : string;
  createdAt : Z;
  captures : gmap string (option CaptureDescriptor);
  mode : option string;
  updatedAt : option Z;
  completedAt : option Z
}.

(** The service: the [activeSessions] map and the storage directory owned by
    [this.imageStorage]. *)
Record Service : Type := {
  activeSessions : gmap string Session;
  imageStorage : ImageStorage.Disk
}.

(** The value [startCaptureSession] resolves to. *)
Record StartResult : Type := {
  start_sessionId : string;
  start_residentInfo : ResidentInfo;
  start_status : string
}.

(** The value [setCaptureMode] resolves to. *)
Record ModeResult : Type := {
  mode_sessionId : string;
  mode_mode : string;
  mode_status : string;
  availableCaptures : list string
}.

(** The value [processCapture] resolves to. *)
Record CaptureResult : Type := {
  success : bool;
  captureType : string;
  cr_imageId : string;
  sessionComplete : bool;
  nextAction : string
}.

(** The value [completeSession] resolves to. *)
Record Summary : Type := {
  sum_sessionId : string;
  sum_residentInfo : ResidentInfo;
  sum_mode : option string;
  sum_captures : gmap string (option CaptureDescriptor);
  sum_createdAt : Z;
  sum_completedAt : option Z;
  totalCaptures : nat
}.

(** What one call of [processCapture] draws from outside: the three readings
    of the clock ([metadata.timestamp], [updatedAt], [completedAt]) and what
    [storeImage] draws. *)
Record CaptureEnv : Type := {
  now_metadata : Z;
  now_updated : Z;
  now_completed : Z;
  store_env : ImageStorage.StoreEnv
}.

Definition double_quote : string := String (Ascii.Ascii false true false false false true false false) EmptyString.

(** A string is the sequence of its UTF-8 bytes. The white space that
    [String.prototype.trim] strips is the WhiteSpace and LineTerminator of
    ECMAScript: the six ASCII characters tab, line feed, vertical tab, form
    feed, carriage return and space; U+00A0 (bytes C2 A0); and the three-byte
    characters U+1680, U+2000 to U+200A, U+2028, U+2029, U+202F, U+205F,
    U+3000 and U+FEFF. *)
Definition is_space2 (c1 c2 : ascii) : bool :=
  bool_decide (c1 = "194"%char) && bool_decide (c2 = "160"%char).

Definition is_space3 (c1 c2 c3 : ascii) : bool :=
  let b2 := Ascii.nat_of_ascii c2 in
  let b3 := Ascii.nat_of_ascii c3 in
  (bool_decide (c1 = "225"%char) && (b2 =? 154)%nat && (b3 =? 128)%nat)
  || (bool_decide (c1 = "226"%char) && (b2 =? 128)%nat
      && (((128 <=? b3)%nat && (b3 <=? 138)%nat)
          || (b3 =? 168)%nat || (b3 =? 169)%nat || (b3 =? 175)%nat))
  || (bool_decide (c1 = "226"%char) && (b2 =? 129)%nat && (b3 =? 159)%nat)
  || (bool_decide (c1 = "227"%char) && (b2 =? 128)%nat && (b3 =? 128)%nat)
  || (bool_decide (c1 = "239"%char) && (b2 =? 187)%nat && (b3 =? 191)%nat).

(** [str.trimStart()] *)
Fixpoint trim_start (s : string) : string :=
  match s with
  | EmptyString => EmptyString
  | String c1 rest1 =>
      if Ascii.is_space c1 then trim_start rest1
      else
        match rest1 with
        | String c2 rest2 =>
            if is_space2 c1 c2 then trim_start rest2
            else
              match rest2 with
              | String c3 rest3 => if is_space3 c1 c2 c3 then trim_start rest3 else s
              | EmptyString => s
              end
        | EmptyString => s
        end
  end.

(** [str.trimEnd()] on the reversed string: the bytes of a character come
    last byte first. *)
Fixpoint trim_end_reversed (s : string) : string :=
  match s with
  | EmptyString => EmptyString
  | String c1 rest1 =>
      if Ascii.is_space c1 then trim_end_reversed rest1
      else
        match rest1 with
        | String c2 rest2 =>
            if is_space2 c2 c1 then trim_end_reversed rest2
            else
              match rest2 with
              | String c3 rest3 =>
                  if is_space3 c3 c2 c1 then trim_end_reversed rest3 else s
              | EmptyString => s
              end
        | EmptyString => s
        end
  end.

(** [str.trim()] *)
Definition trim (s : string) : string :=
  String.rev (trim_end_reversed (String.rev (trim_start s))).

(** [generateSessionId()], with [now] the reading of [Date.now()] and
    [suffix] the digits [Math.random().toString(36).substr(2, 9)]. *)
Definition generateSessionId (now : Z) (suffix : string) : string :=
  "session_" +:+ pretty now +:+ "_" +:+ suffix.

(** [getAvailableCaptures(mode)] *)
Definition getAvailableCaptures (mode : option string) : list string :=
  match mode with
  | Some m =>
      if decide (m = "pedestrian") then ["person"]
      else if decide (m = "vehicle") then ["person"; "vehicle"]
      else []
  | None => []
  end.

(** [session.captures[captureType] !== null] *)
Definition capture_not_null (s : Session) (captureType : string) : bool :=
  match captures s !! captureType with
  | Some None => false
  | _ => true
  end.

(** [session.captures[captureType] === null] *)
Definition capture_is_null (s : Session) (captureType : string) : bool :=
  negb (capture_not_null s captureType).

(** [isSessionComplete(session)] *)
Definition isSessionComplete (s : Session) : bool :=
  forallb (capture_not_null s) (getAvailableCaptures (mode s)).

(** [getNextAction(session, completedCapture)] *)
Definition getNextAction (s : Session) (completedCapture : string) : string :=
  let availableCaptures := getAvailableCaptures (mode s) in
  let remainingCaptures :=
    filter (fun captureType => capture_is_null s captureType) availableCaptures in
  match remainingCaptures with
  | [] => "complete_session"
  | first :: _ => "capture_" +:+ first
  end.

(** [Object.values(session.captures).filter(c => c !== null).length] *)
Definition count_captures (c : gmap string (option CaptureDescriptor)) : nat :=
  length (filter (fun v : option CaptureDescriptor => v ≠ None)
                 (snd <$> map_to_list c)).

Definition with_sessions (sv : Service) (m : gmap string Session) : Service :=
  {| activeSessions := m; imageStorage := imageStorage sv |}.

(** [getSession(sessionId)] *)
Definition getSession (sessionId : string) (sv : Service) : Outcome Session :=
  match activeSessions sv !! sessionId with
  | Some session => Returned session
  | None => Thrown (Error ("Session not found: " +:+ sessionId))
  end.

(** [getActiveSessionsCount()] *)
Definition getActiveSessionsCount (sv : Service) : nat := size (activeSessions sv).

(** [startCaptureSession(otp)]. [otp] is [None] for [null], [undefined] or a
    value that is not a string; [lookup] is the outcome of
    [estateMateClient.searchByOTP(otp.trim())]; [now_id] and [now_created]
    are the readings of the clock in [generateSessionId] and for
    [createdAt]. *)
Definition startCaptureSession (now_id now_created : Z) (suffix : string)
    (lookup : string -> Outcome ResidentInfo) (otp : option string) (sv : Service)
  : Outcome StartResult * Service :=
  match otp with
  | None => (Thrown (Error "OTP is required and must be a non-empty string"), sv)
  | Some otp =>
      if decide (trim otp = "") then
        (Thrown (Error "OTP is required and must be a non-empty string"), sv)
      else
        match lookup (trim otp) with
        | Thrown e => (Thrown e, sv)
        | Returned residentInfo =>
            let sessionId := generateSessionId now_id suffix in
            let session :=
              {| id := sessionId;
                 otp := trim otp;
                 residentInfo := residentInfo;
                 status := "active";
                 createdAt := now_created;
                 captures := <["person" := None]> (<["vehicle" := None]> ∅);
                 mode := None;
                 updatedAt := None;
                 completedAt := None |} in
            (Returned {| start_sessionId := sessionId;
                         start_residentInfo := residentInfo;
                         start_status := "ready_for_mode_selection" |},
             with_sessions sv (<[sessionId := session]> (activeSessions sv)))
        end
  end.

(** [setCaptureMode(sessionId, mode)], with [now] the reading of the clock. *)
Definition setCaptureMode (now : Z) (sessionId mode_arg : string) (sv : Service)
  : Outcome ModeResult * Service :=
  match getSession sessionId sv with
  | Thrown e => (Thrown e, sv)
  | Returned session =>
      if negb (bool_decide (mode_arg ∈ ["pedestrian"; "vehicle"])) then
        (Thrown (Error ("Invalid capture mode. Must be " +:+ double_quote +:+ "pedestrian"
                        +:+ double_quote +:+ " or " +:+ double_quote +:+ "vehicle"
                        +:+ double_quote)), sv)
      else
        let session' :=
          {| id := id session; otp := otp session;
             residentInfo := residentInfo session; status := status session;
             createdAt := createdAt session; captures := captures session;
             mode := Some mode_arg;
             updatedAt := Some now;
             completedAt := completedAt session |} in
        (Returned {| mode_sessionId := sessionId;
                     mode_mode := mode_arg;
                     mode_status := "ready_for_capture";
                     availableCaptures := getAvailableCaptures (Some mode_arg) |},
         with_sessions sv (<[sessionId := session']> (activeSessions sv)))
  end.

Section Orchestrator.
Context (cfg : ImageStorage.Config) (rt : ImageStorage.Runtime).

(** The [metadata] object [processCapture] hands to [storeImage]. *)
Definition capture_metadata (env : CaptureEnv) (sessionId captureType : string)
    (session : Session) : ImageStorage.StoreRequest :=
  {| ImageStorage.req_residentInfo := residentInfo session;
     ImageStorage.req_captureType := captureType;
     ImageStorage.req_timestamp := now_metadata env;
     ImageStorage.req_sessionId := sessionId;
     ImageStorage.req_otp := otp session |}.

(** The assignments of [processCapture] after [storeImage] resolved:
    [session.captures[captureType] = {...}; session.updatedAt = ...]. *)
Definition record_capture (env : CaptureEnv) (captureType : string)
    (storageResult : ImageStorage.StoreResult) (session : Session) : Session :=
  {| id := id session; otp := otp session;
     residentInfo := residentInfo session; status := status session;
     createdAt := createdAt session;
     captures :=
       <[captureType :=
           Some {| imageId := ImageStorage.fileId storageResult;
                   filename := ImageStorage.sr_filename storageResult;
                   timestamp := now_metadata env;
                   fileSize := ImageStorage.fileSize (ImageStorage.metadata storageResult) |}]>
         (captures session);
     mode := mode session;
     updatedAt := Some (now_updated env);
     completedAt := completedAt session |}.

(** [session.status = 'completed'; session.completedAt = ...] *)
Definition mark_completed (env : CaptureEnv) (session : Session) : Session :=
  {| id := id session; otp := otp session;
     residentInfo := residentInfo session; status := "completed";
     createdAt := createdAt session; captures := captures session;
     mode := mode session; updatedAt := updatedAt session;
     completedAt := Some (now_completed env) |}.

(** [processCapture(sessionId, captureType, imageBuffer)] *)
Definition processCapture (env : CaptureEnv) (sessionId captureType : string)
    (imageBuffer : Buffer) (sv : Service) : Outcome CaptureResult * Service :=
  match getSession sessionId sv with
  | Thrown e => (Thrown e, sv)
  | Returned session =>
      if negb (bool_decide (captureType ∈ ["person"; "vehicle"])) then
        (Thrown (Error ("Invalid capture type. Must be " +:+ double_quote +:+ "person"
                        +:+ double_quote +:+ " or " +:+ double_quote +:+ "vehicle"
                        +:+ double_quote)), sv)
      else if bool_decide (mode session = Some "pedestrian")
              && bool_decide (captureType = "vehicle") then
        (Thrown (Error "Vehicle capture not allowed in pedestrian mode"), sv)
      else
        let metadata := capture_metadata env sessionId captureType session in
        match ImageStorage.storeImage cfg rt (store_env env) imageBuffer metadata
                (imageStorage sv) with
        | (Thrown e, disk') =>
            (Thrown e, {| activeSessions := activeSessions sv; imageStorage := disk' |})
        | (Returned storageResult, disk') =>
            let session1 := record_capture env captureType storageResult session in
            let isComplete := isSessionComplete session1 in
            let session2 := if isComplete then mark_completed env session1 else session1 in
            (Returned {| success := true;
                         captureType := captureType;
                         cr_imageId := ImageStorage.fileId storageResult;
                         sessionComplete := isComplete;
                         nextAction := getNextAction session2 captureType |},
             {| activeSessions := <[sessionId := session2]> (activeSessions sv);
                imageStorage := disk' |})
        end
  end.

End Orchestrator.

(** [completeSession(sessionId)] *)
Definition completeSession (sessionId : string) (sv : Service)
  : Outcome Summary * Service :=
  match getSession sessionId sv with
  | Thrown e => (Thrown e, sv)
  | Returned session =>
      if negb (bool_decide (status session = "completed")) then
        (Thrown (Error "Session is not ready for completion"), sv)
      else
        (Returned {| sum_sessionId := sessionId;
                     sum_residentInfo := residentInfo session;
                     sum_mode := mode session;
                     sum_captures := captures session;
                     sum_createdAt := createdAt session;
                     sum_completedAt := completedAt session;
                     totalCaptures := count_captures (captures session) |},
         with_sessions sv (delete sessionId (activeSessions sv)))
  end.

(** The default of the parameter [maxAge]: 30 minutes. *)
Definition default_maxAge : Z := 30 * 60 * 1000.

(** [sessionAge > maxAge], with [sessionAge = now - new Date(session.createdAt)] *)
Definition expired (now maxAge : Z) (session : Session) : bool :=
  maxAge <? now - createdAt session.

(** [cleanupExpiredSessions(maxAge)], with [now] the reading of the clock and
    [None] for an omitted argument. *)
Definition cleanupExpiredSessions (now : Z) (maxAge_arg : option Z) (sv : Service)
  : nat * Service :=
  let maxAge := default default_maxAge maxAge_arg in
  let expiredSessions :=
    fst <$> filter (fun entry : string * Session => expired now maxAge (snd entry))
                   (map_to_list (activeSessions sv)) in
  (length expiredSessions,
   with_sessions sv (foldl (fun m sessionId => delete sessionId m)
                           (activeSessions sv) expiredSessions)).

(** *** The service as a state machine *)

(** One call of a state-changing method, with what it draws from outside.
    ([getSession], [getActiveSessionsCount] and [getStatus] change nothing.) *)
Inductive Op : Type :=
| StartCaptureSession (now_id now_created : Z) (suffix : string)
    (lookup : string -> Outcome ResidentInfo) (otp : option string)
| SetCaptureMode (now : Z) (sessionId mode_arg : string)
| ProcessCapture (env : CaptureEnv) (sessionId captureType : string) (imageBuffer : Buffer)
| CompleteSession (sessionId : string)
| CleanupExpiredSessions (now : Z) (maxAge_arg : option Z).

Section Machine.
Context (cfg : ImageStorage.Config) (rt : ImageStorage.Runtime).

(** The state after a call, whether it returned or threw. *)
Definition step (sv : Service) (op : Op) : Service :=
  match op with
  | StartCaptureSession now_id now_created suffix lookup otp =>
      snd (startCaptureSession now_id now_created suffix lookup otp sv)
  | SetCaptureMode now sessionId mode_arg =>
      snd (setCaptureMode now sessionId mode_arg sv)
  | ProcessCapture env sessionId captureType imageBuffer =>
      snd (processCapture cfg rt env sessionId captureType imageBuffer sv)
  | CompleteSession sessionId =>
      snd (completeSession sessionId sv)
  | CleanupExpiredSessions now maxAge_arg =>
      snd (cleanupExpiredSessions now maxAge_arg sv)
  end.

Definition run (ops : list Op) (sv : Service) : Service := foldl step sv ops.

End Machine.

(** The service as the constructor leaves it. *)
Definition initial : Service :=
  {| activeSessions := ∅; imageStorage := ImageStorage.empty_disk |}.

(** The call may write the [mode] of session [sessionId]: a [setCaptureMode]
    on it, or a [startCaptureSession] whose generated id is [sessionId]
    (the new session replaces the one registered under that id). *)
Definition writes_mode_of (sessionId : string) (op : Op) : bool :=
  match op with
  | SetCaptureMode _ sid _ => bool_decide (sid = sessionId)
  | StartCaptureSession now_id _ suffix _ _ =>
      bool_decide (generateSessionId now_id suffix = sessionId)
  | _ => false
  end.

(** The shape every session object has from its creation on: [captures] has
    exactly the keys [person] and [vehicle]. *)
Definition session_wf (s : Session) : Prop :=
  is_Some (captures s !! "person") ∧ is_Some (captures s !! "vehicle")
  ∧ ∀ k, is_Some (captures s !! k) → k = "person" ∨ k = "vehicle".

Definition service_wf (sv : Service) : Prop :=
  ∀ sid s, activeSessions sv !! sid = Some s → session_wf s.

(** The type has a descriptor recorded ([captures[t]] is an object). *)
Definition has_descriptor (s : Session) (t : string) : Prop :=
  ∃ d, captures s !! t = Some (Some d).



(** The number of capture types with a descriptor. *)
Definition descriptors_present (c : gmap string (option CaptureDescriptor)) : nat :=
  size (filter (fun kv : string * option CaptureDescriptor => is_Some (snd kv)) c).

(** [str.toLowerCase()] on an ASCII string, to compare a message with its
    quotation in the documentation. *)
Definition lower_char (c : ascii) : ascii :=
  let n := Ascii.nat_of_ascii c in
  if ((65 <=? n) && (n <=? 90))%nat then Ascii.ascii_of_nat (n + 32) else c.

Fixpoint toLowerCase (s : string) : string :=
  match s with
  | EmptyString => EmptyString
  | String c rest => String (lower_char c) (toLowerCase rest)
  end.

End CaptureService.

(** ** Resident directory client ([estateMateClient.js]) *)
Module EstateMateClient.

(** JavaScript's [a || b] where [a] is a string or [undefined]: the empty
    string is falsy. *)
Definition or_else (a b : option string) : option string :=
  match a with
  | Some s => if decide (s = "") then b else Some s
  | None => b
  end.

Definition truthy (a : option string) : bool :=
  match a with
  | Some s => negb (bool_decide (s = ""))
  | None => false
  end.

(** The fields the constructor sets from the environment. *)
Record Client : Type := {
  baseURL : string;
  apiKey : option string;
  timeout : Z
}.

Definition default_baseURL : string := "https://api.estatemate.com".

(** [new EstateMateClient()], with the two environment variables. *)
Definition create (env_url env_key : option string) : Client :=
  {| baseURL := default default_baseURL (or_else env_url (Some default_baseURL));
     apiKey := env_key;
     timeout := 10000 |}.

(** The [errors] array [validateConfig] builds. *)
Definition config_errors (c : Client) : list string :=
  (if truthy (apiKey c) then [] else ["ESTATE_MATE_API_KEY is required"])
  ++ (if truthy (Some (baseURL c)) then [] else ["ESTATE_MATE_API_URL is required"]).

(** [validateConfig()] *)
Definition validateConfig (c : Client) : bool :=
  if decide (0 < length (config_errors c))%nat then false else true.

(** [testConnection()], with [health] the outcome of [client.get('/health')]. *)
Definition testConnection (health : Outcome unit) : bool :=
  match health with
  | Returned _ => true
  | Thrown _ => false
  end.




End EstateMateClient.

(** ** Start-up of the orchestrator ([initialize], [getStatus]) *)
Module Startup.

(** The directory client in use. *)
Inductive Directory : Type :=
| Live (c : EstateMateClient.Client)
| Demo.

(** The fields [estateMateClient] and [demoMode] of the service. *)
Record Boot : Type := {
  estateMateClient : option Directory;
  demoMode : bool
}.

(** As the constructor leaves them. *)
Definition constructed : Boot := {| estateMateClient := None; demoMode := false |}.

(** [initialize()], with [ctor] the outcome of [new EstateMateClient()] and
    [health] the outcome of the health request. *)
Definition initialize (ctor : Outcome EstateMateClient.Client) (health : Outcome unit)
    (b : Boot) : bool * Boot :=
  match ctor with
  | Thrown _ => (true, {| estateMateClient := Some Demo; demoMode := true |})
  | Returned c =>
      if negb (EstateMateClient.validateConfig c) then
        (true, {| estateMateClient := Some Demo; demoMode := true |})
      else if negb (EstateMateClient.testConnection health) then
        (true, {| estateMateClient := Some Demo; demoMode := true |})
      else
        (true, {| estateMateClient := Some (Live c); demoMode := demoMode b |})
  end.

(** The object [getStatus] returns ([demoOTPs_listed]: whether the
    [demoOTPs] field is present). *)
Record Status : Type := {
  initialized : bool;
  activeSessions : nat;
  apiConnected : bool;
  storageAvailable : bool;
  lastCleanup : Z;
  status_demoMode : bool;
  demoOTPs_listed : bool
}.

(** [getStatus()], with [now] the reading of the clock. In demo mode it
    reads [this.estateMateClient.getDemoOTPs], which throws a [TypeError]
    while the client is still [null]; only the demo client has that method. *)
Definition getStatus (now : Z) (b : Boot) (sv : CaptureService.Service) : Outcome Status :=
  let status demoOTPs :=
    {| initialized := true;
       activeSessions := size (CaptureService.activeSessions sv);
       apiConnected := negb (demoMode b);
       storageAvailable := true;
       lastCleanup := now;
       status_demoMode := demoMode b;
       demoOTPs_listed := demoOTPs |} in
  if demoMode b then
    match estateMateClient b with
    | None => Thrown (Error "Cannot read properties of null (reading 'getDemoOTPs')")
    | Some Demo => Returned (status true)
    | Some (Live _) => Returned (status false)
    end
  else Returned (status false).

End Startup.

(** ** Invariants of the sessions the service holds *)
Module SessionInvariant.
Import CaptureService.

(** What holds of every session object from its creation on. *)
Record session_inv (sid : string) (s : Session) : Prop := {
  inv_id : id s = sid;
  inv_shape : session_wf s;
  inv_status : status s = "active" ∨ status s = "completed";
  inv_mode : mode s = None ∨ mode s = Some "pedestrian" ∨ mode s = Some "vehicle";
  inv_completedAt : status s = "completed" <-> is_Some (completedAt s);
  inv_captured : status s = "completed" -> exists t, has_descriptor s t
}.

Definition service_inv (sv : Service) : Prop :=
  ∀ sid s, activeSessions sv !! sid = Some s → session_inv sid s.

(** Every character of the string is white space. *)
Fixpoint all_whitespace (s : string) : bool :=
  match s with
  | EmptyString => true
  | String c rest => Ascii.is_space c && all_whitespace rest
  end.

(** Two sessions differ at most in [mode] and [updatedAt]. *)
Definition same_but_mode (s s' : Session) : Prop :=
  id s' = id s ∧ otp s' = otp s ∧ residentInfo s' = residentInfo s
  ∧ status s' = status s ∧ createdAt s' = createdAt s
  ∧ captures s' = captures s ∧ completedAt s' = completedAt s.

(** What a session keeps for as long as it is registered: its identity, its
    resident, its creation time, the status ['completed'] once reached, and a
    descriptor for every capture type that had one. *)
Definition keeps (s s' : Session) : Prop :=
  id s' = id s ∧ otp s' = otp s ∧ residentInfo s' = residentInfo s
  ∧ createdAt s' = createdAt s
  ∧ (status s = "completed" → status s' = "completed")
  ∧ (∀ t, has_descriptor s t → has_descriptor s' t).

(** A session on which nothing was captured, and a service that holds only
    such sessions and has stored nothing. *)
Definition session_pristine (s : Session) : Prop :=
  status s = "active"
  ∧ captures s !! "person" = Some None
  ∧ captures s !! "vehicle" = Some None
  ∧ completedAt s = None.

Definition service_pristine (sv : Service) : Prop :=
  (∀ sid s, activeSessions sv !! sid = Some s → session_pristine s)
  ∧ imageStorage sv = ImageStorage.empty_disk.

(** The call registers a new session under [sessionId]. *)
Definition restarts (sessionId : string) (op : Op) : bool :=
  match op with
  | StartCaptureSession now_id _ suffix _ _ =>
      bool_decide (generateSessionId now_id suffix = sessionId)
  | _ => false
  end.

End SessionInvariant.

(** ** A stand-in runtime, to run the model on concrete inputs

    A toy authenticated cipher in the place of the cipher calls, as the
    storage engine is stubbed in the tests of the orchestrator (the ciphertext
    is the reversed plaintext, the tag a 16-fold checksum of key, nonce,
    context and ciphertext), and an image codec that accepts every non-empty
    buffer and leaves it as it is. *)
Module Fixture.
Import ImageStorage.

Definition checksum_byte (bs : Buffer) : byte :=
  default x00 (Byte.of_N (foldr (fun b acc => ((Byte.to_N b + acc) mod 256)%N) 0%N bs)).

Definition tag_of (key iv aad_ c : Buffer) : Buffer :=
  replicate 16 (checksum_byte (key ++ iv ++ aad_ ++ c)).

Definition seal (key iv aad_ p : Buffer) : option (Buffer * Buffer) :=
  if decide (length key = 32%nat ∧ length iv = 16%nat)
  then Some (rev p, tag_of key iv aad_ (rev p))
  else None.

Definition open (key iv aad_ t c : Buffer) : option Buffer :=
  if decide (t = tag_of key iv aad_ c) then Some (rev c) else None.

Definition runtime : Runtime :=
  {| gcm_seal := seal;
     gcm_open := open;
     sharp_metadata := fun b => if decide (b = []) then None else Some (640, 480);
     sharp_jpeg := fun _ _ b => Some b;
     sha256_hex := fun b => pretty (N.of_nat (length b));
     toISOString := fun t => pretty t |}.

(** The same runtime with the two cipher calls as [node:crypto] has them. *)
Definition node_runtime : Runtime :=
  {| gcm_seal := fun _ _ _ _ => None;
     gcm_open := fun _ _ _ _ _ => None;
     sharp_metadata := sharp_metadata runtime;
     sharp_jpeg := sharp_jpeg runtime;
     sha256_hex := sha256_hex runtime;
     toISOString := toISOString runtime |}.

Definition config : Config :=
  {| storageDir := "./storage/images";
     encryptionKey := replicate 32 x2a;
     compressionQuality := 80;
     maxFileSize := 5 * 1024 * 1024 |}.

Definition nonce : Buffer := replicate 16 x07.

Definition image : Buffer := [x89; x50; x4e; x47].

Definition store_env_ok (uuid : string) : StoreEnv :=
  {| env_uuid := uuid; env_iv := nonce;
     env_writeFile_error := None; env_writeJson_error := None |}.

Definition resident : ResidentInfo :=
  {| res_id := "123"; res_name := "John Doe"; res_unitNumber := "A101";
     res_phone := "+1234567890"; res_email := "john@example.com" |}.

Definition request : StoreRequest :=
  {| req_residentInfo := resident; req_captureType := "person";
     req_timestamp := 1700000000000; req_sessionId := "session_1_a";
     req_otp := "123456" |}.

(** The disk after one image was stored. *)
Definition disk_stored : Disk :=
  snd (storeImage config runtime (store_env_ok "img-1") image request empty_disk).

(** The bytes of the image file it wrote. *)
Definition stored_bytes : Buffer :=
  default [] (files disk_stored !! "storage/images/person/img-1_1700000000000.jpg").

(** What that call returned. *)
Definition stored_result : StoreResult :=
  {| success := true; fileId := "img-1";
     sr_filename := "img-1_1700000000000.jpg";
     sr_filePath := "storage/images/person/img-1_1700000000000.jpg";
     metadata :=
       {| id := "img-1"; filename := "img-1_1700000000000.jpg";
          filePath := "storage/images/person/img-1_1700000000000.jpg";
          captureType := "person"; timestamp := 1700000000000;
          residentInfo := {| snap_id := "123"; snap_name := "John Doe";
                             snap_unitNumber := "A101" |};
          fileSize := 36; originalSize := 4;
          compressionRatio := (-800)%float; checksum := "36" |} |}.

(** What [storeImage] returns to a [processCapture] whose clock reads 1002. *)
Definition captured_result : StoreResult :=
  {| success := true; fileId := "img-1";
     sr_filename := "img-1_1002.jpg";
     sr_filePath := "storage/images/person/img-1_1002.jpg";
     metadata :=
       {| id := "img-1"; filename := "img-1_1002.jpg";
          filePath := "storage/images/person/img-1_1002.jpg";
          captureType := "person"; timestamp := 1002;
          residentInfo := {| snap_id := "123"; snap_name := "John Doe";
                             snap_unitNumber := "A101" |};
          fileSize := 36; originalSize := 4;
          compressionRatio := (-800)%float; checksum := "36" |} |}.

(** A call of [storeImage] during which the metadata write fails. *)
Definition store_env_json_fails : StoreEnv :=
  {| env_uuid := "img-9"; env_iv := nonce;
     env_writeFile_error := None;
     env_writeJson_error := Some (Error "EACCES: permission denied") |}.

(** A second request, for a vehicle capture of another resident. *)
Definition resident2 : ResidentInfo :=
  {| res_id := "456"; res_name := "Jane Smith"; res_unitNumber := "B205";
     res_phone := "+1987654321"; res_email := "jane@example.com" |}.

Definition request_vehicle : StoreRequest :=
  {| req_residentInfo := resident2; req_captureType := "vehicle";
     req_timestamp := 1700000005000; req_sessionId := "session_2_b";
     req_otp := "789012" |}.

Definition blank_result : StoreResult :=
  {| success := false; fileId := ""; sr_filename := ""; sr_filePath := "";
     metadata :=
       {| id := ""; filename := ""; filePath := ""; captureType := ""; timestamp := 0;
          residentInfo := {| snap_id := ""; snap_name := ""; snap_unitNumber := "" |};
          fileSize := 0; originalSize := 0; compressionRatio := 0%float;
          checksum := "" |} |}.

(** The value of an outcome that returned. *)
Definition returned {A} (dflt : A) (o : Outcome A) : A :=
  match o with
  | Returned a => a
  | Thrown _ => dflt
  end.

(** A second image stored after the first. *)
Definition store_two : StoreResult * Disk :=
  let '(o, d) := storeImage config runtime (store_env_ok "img-2") image request_vehicle
                   disk_stored in
  (returned blank_result o, d).

Definition disk_two : Disk := snd store_two.

Definition delete_env_ok : DeleteEnv :=
  {| env_removeFile_error := None; env_removeJson_error := None |}.

(** [b] with the byte at index [i] replaced by [x]. *)
Definition tamper (i : nat) (x : byte) (b : Buffer) : Buffer := <[i := x]> b.

(** [disk_stored] with one byte of the stored image file altered. *)
Definition disk_tampered : Disk :=
  {| files := (tamper 33 xff) <$> files disk_stored;
     jsonFiles := jsonFiles disk_stored |}.

Definition capture_env (t : Z) (uuid : string) : CaptureService.CaptureEnv :=
  {| CaptureService.now_metadata := t;
     CaptureService.now_updated := t + 1;
     CaptureService.now_completed := t + 2;
     CaptureService.store_env := store_env_ok uuid |}.

Definition directory (otp : string) : Outcome ResidentInfo := Returned resident.

Definition sid : string := CaptureService.generateSessionId 1000 "k3x9q2m1z".

(** A session was started and not yet given a mode. *)
Definition sv_started : CaptureService.Service :=
  CaptureService.run config runtime
    [CaptureService.StartCaptureSession 1000 1000 "k3x9q2m1z" directory (Some "123456")]
    CaptureService.initial.

Definition sv_mode (m : string) : CaptureService.Service :=
  CaptureService.run config runtime [CaptureService.SetCaptureMode 1001 sid m] sv_started.

(** A person capture was recorded before any mode was selected. *)
Definition sv_captured_without_mode : CaptureService.Service :=
  CaptureService.run config runtime
    [CaptureService.ProcessCapture (capture_env 1002 "img-1") sid "person" image]
    sv_started.

(** ... and the vehicle mode was selected afterwards. *)
Definition sv_vehicle_after_capture : CaptureService.Service :=
  CaptureService.run config runtime
    [CaptureService.SetCaptureMode 1010 sid "vehicle"]
    sv_captured_without_mode.

(** The pedestrian session with its person capture recorded. *)
Definition sv_pedestrian_done : CaptureService.Service :=
  CaptureService.run config runtime
    [CaptureService.ProcessCapture (capture_env 1002 "img-1") sid "person" image]
    (sv_mode "pedestrian").

(** The vehicle session after its vehicle capture, then after both. *)
Definition sv_vehicle_first : CaptureService.Service :=
  CaptureService.run config runtime
    [CaptureService.ProcessCapture (capture_env 1002 "img-1") sid "vehicle" image]
    (sv_mode "vehicle").

Definition sv_vehicle_both : CaptureService.Service :=
  CaptureService.run config runtime
    [CaptureService.ProcessCapture (capture_env 1010 "img-2") sid "person" image]
    sv_vehicle_first.

Definition blank_session : CaptureService.Session :=
  {| CaptureService.id := ""; CaptureService.otp := "";
     CaptureService.residentInfo := resident; CaptureService.status := "";
     CaptureService.createdAt := 0; CaptureService.captures := ∅;
     CaptureService.mode := None; CaptureService.updatedAt := None;
     CaptureService.completedAt := None |}.

(** The session registered under [sid]. *)
Definition session_of (sv : CaptureService.Service) : CaptureService.Session :=
  default blank_session (CaptureService.activeSessions sv !! sid).

(** A call of [processCapture] during which the disk is full. *)
Definition capture_env_disk_full (t : Z) (uuid : string) : CaptureService.CaptureEnv :=
  {| CaptureService.now_metadata := t;
     CaptureService.now_updated := t + 1;
     CaptureService.now_completed := t + 2;
     CaptureService.store_env :=
       {| env_uuid := uuid; env_iv := nonce;
          env_writeFile_error := Some (Error "ENOSPC: no space left on device");
          env_writeJson_error := None |} |}.

End Fixture.

(** ** Properties of the image storage engine *)
Module ImageStorageSpec.
Import ImageStorage.

(** The runtime [Fixture.node_runtime] has the cipher calls of [node:crypto]. *)
#[export] Instance fixture_node_crypto : NodeCrypto Fixture.node_runtime.
Proof. by split. Qed.

(** *** The cipher calls *)

Section Cipher.
Context (cfg : Config) (rt : Runtime) (Hnode : NodeCrypto rt).

Lemma encryptImage_node_crypto (iv b : Buffer) :
  encryptImage cfg rt iv b = Thrown (Error "Failed to encrypt image").
Proof. unfold encryptImage. by rewrite createCipherGCM_throws. Qed.

Lemma decryptImage_node_crypto (encryptedBuffer : Buffer) :
  decryptImage cfg rt encryptedBuffer = Thrown (Error "Failed to decrypt image").
Proof. unfold decryptImage. by rewrite createDecipherGCM_throws. Qed.

(** With these calls [storeImage] throws before it writes anything. *)
Lemma storeImage_node_crypto env buf req d :
  exists e, storeImage cfg rt env buf req d = (Thrown e, d).
Proof.
  unfold storeImage.
  case_decide; [by eexists|]. case_decide; [by eexists|].
  destruct (processImage cfg rt buf) as [processed|e]; [|by eexists].
  rewrite encryptImage_node_crypto. by eexists.
Qed.

(** Bytes that are not empty, within the size limit and decodable get as far
    as the encryption. *)
Lemma storeImage_encrypt_failure env buf req d width height encoded :
  buf_length buf <> 0 ->
  buf_length buf <= maxFileSize cfg ->
  sharp_metadata rt buf = Some (width, height) ->
  sharp_jpeg rt ((1920 <? width) || (1080 <? height)) (compressionQuality cfg) buf
    = Some encoded ->
  storeImage cfg rt env buf req d = (Thrown (Error "Failed to encrypt image"), d).
Proof.
  intros Hne Hmax Hmeta Hjpeg. unfold storeImage, processImage.
  rewrite decide_False by done. rewrite decide_False by lia.
  rewrite Hmeta, Hjpeg. simpl. by rewrite encryptImage_node_crypto.
Qed.

End Cipher.

(** C6. The code calls [crypto.createCipherGCM] and
    [crypto.createDecipherGCM], which [node:crypto] does not have: for every
    buffer and every nonce [encryptImage] throws "Failed to encrypt image",
    and for every buffer [decryptImage] throws "Failed to decrypt image". No
    output is laid out, and no buffer is ever given back by a round trip. *)
Theorem encryptImage_always_throws (cfg : Config) (rt : Runtime) (Hnode : NodeCrypto rt)
    (iv b : Buffer) :
  encryptImage cfg rt iv b = Thrown (Error "Failed to encrypt image")
  /\ (forall encryptedBuffer,
        decryptImage cfg rt encryptedBuffer = Thrown (Error "Failed to decrypt image"))
  /\ ~ (exists encrypted,
          encryptImage cfg rt iv b = Returned encrypted
          /\ decryptImage cfg rt encrypted = Returned b).
Proof.
  assert (encryptImage cfg rt iv b = Thrown (Error "Failed to encrypt image")) as Henc.
  { unfold encryptImage, catch_rethrow_as.
    by rewrite (createCipherGCM_throws (encryptionKey cfg) iv aad b). }
  split; [done|]. split.
  - intros enc. unfold decryptImage, catch_rethrow_as. cbv zeta.
    by rewrite (createDecipherGCM_throws (encryptionKey cfg) (slice 0 16 enc) aad
                  (slice 16 32 enc) (slice_from 32 enc)).
  - intros (enc & Hreturned & _). rewrite Henc in Hreturned. discriminate Hreturned.
Qed.

Lemma encryptImage_always_throws_witness :
  encryptImage Fixture.config Fixture.node_runtime Fixture.nonce Fixture.image
  = Thrown (Error "Failed to encrypt image")
  /\ length (encryptionKey Fixture.config) = 32%nat
  /\ length Fixture.nonce = 16%nat.
Proof.
  split; [|by vm_compute].
  apply (encryptImage_always_throws Fixture.config Fixture.node_runtime
           fixture_node_crypto Fixture.nonce Fixture.image).
Defined.

(** *** Storing *)

Section Store.
Context (cfg : Config) (rt : Runtime).

(** What a call of [storeImage] that returned went through. *)
Lemma storeImage_returned env buf req d r d' :
  storeImage cfg rt env buf req d = (Returned r, d') ->
  exists processedImage encryptedImage,
    buf_length buf <> 0
    /\ buf_length buf <= maxFileSize cfg
    /\ processImage cfg rt buf = Returned processedImage
    /\ encryptImage cfg rt (env_iv env) processedImage = Returned encryptedImage
    /\ fileId r = env_uuid env
    /\ id (metadata r) = fileId r
    /\ filePath (metadata r) = sr_filePath r
    /\ fileSize (metadata r) = buf_length encryptedImage
    /\ originalSize (metadata r) = buf_length buf
    /\ compressionRatio (metadata r) =
         ((1 - number_of_size (buf_length encryptedImage)
               / number_of_size (buf_length buf)) * 100)%float
    /\ files d' = <[sr_filePath r := encryptedImage]> (files d)
    /\ jsonFiles d' = <[metadataPath cfg (fileId r) := metadata r]> (jsonFiles d).
Proof.
  unfold storeImage, saveMetadata. intros H.
  case_decide as Hempty; [done|].
  case_decide as Hmax; [done|].
  destruct (processImage cfg rt buf) as [processed|] eqn:Hp; [|done].
  destruct (encryptImage cfg rt (env_iv env) processed) as [encrypted|] eqn:He; [|done].
  destruct (env_writeFile_error env); [done|].
  destruct (env_writeJson_error env); [done|].
  injection H as <- <-. exists processed, encrypted. simpl.
  repeat split; try done. lia.
Qed.

(** A failed [storeImage] leaves the metadata records as they were. *)
Lemma storeImage_thrown_metadata env buf req d e d' :
  storeImage cfg rt env buf req d = (Thrown e, d') -> jsonFiles d' = jsonFiles d.
Proof.
  unfold storeImage, saveMetadata. intros H.
  repeat (case_decide; [by injection H as <- <-|]).
  destruct (processImage cfg rt buf); [|by injection H as <- <-].
  destruct (encryptImage cfg rt (env_iv env) _); [|by injection H as <- <-].
  destruct (env_writeFile_error env); [by injection H as <- <-|].
  destruct (env_writeJson_error env); [by injection H as <- <-|done].
Qed.

End Store.

(** C9. When [storeImage] returns, the [compressionRatio] of the metadata
    record is [(1 - fileSize / originalSize) * 100], computed in double
    precision, where [originalSize] is the length of the input buffer and
    [fileSize] the length of the encrypted bytes now stored under the
    returned path. *)
Theorem storeImage_compressionRatio (cfg : Config) (rt : Runtime) (env : StoreEnv)
    (buf : Buffer) (req : StoreRequest) (d d' : Disk) (r : StoreResult) :
  storeImage cfg rt env buf req d = (Returned r, d') ->
  exists encryptedImage,
    files d' !! sr_filePath r = Some encryptedImage
    /\ fileSize (metadata r) = buf_length encryptedImage
    /\ originalSize (metadata r) = buf_length buf
    /\ compressionRatio (metadata r) =
         ((1 - number_of_size (fileSize (metadata r))
               / number_of_size (originalSize (metadata r))) * 100)%float.
Proof.
  intros H.
  destruct (storeImage_returned _ _ _ _ _ _ _ _ H)
    as (processed & encrypted & _ & _ & _ & _ & _ & _ & _ & Hsize & Horig & Hratio & Hfiles & _).
  exists encrypted. rewrite Hfiles, lookup_insert_eq, Hsize, Horig. done.
Qed.

Lemma storeImage_compressionRatio_witness :
  exists encryptedImage,
    files Fixture.disk_stored !! sr_filePath Fixture.stored_result = Some encryptedImage
    /\ fileSize (metadata Fixture.stored_result) = buf_length encryptedImage
    /\ originalSize (metadata Fixture.stored_result) = buf_length Fixture.image
    /\ compressionRatio (metadata Fixture.stored_result) =
         ((1 - number_of_size (fileSize (metadata Fixture.stored_result))
               / number_of_size (originalSize (metadata Fixture.stored_result))) * 100)%float.
Proof.
  apply (storeImage_compressionRatio Fixture.config Fixture.runtime
           (Fixture.store_env_ok "img-1") Fixture.image Fixture.request
           empty_disk Fixture.disk_stored Fixture.stored_result).
  vm_compute. reflexivity.
Defined.

Section Retrieve.
Context (cfg : Config) (rt : Runtime).

(** [retrieveImage] throws one error only. *)
Lemma retrieveImage_thrown imageId d e :
  retrieveImage cfg rt imageId d = Thrown e -> e = Error "Failed to retrieve image".
Proof.
  unfold retrieveImage, catch_rethrow_as. intros H.
  repeat case_match; congruence.
Qed.

Lemma decryptImage_returned enc p :
  decryptImage cfg rt enc = Returned p ->
  gcm_open rt (encryptionKey cfg) (slice 0 16 enc) aad (slice 16 32 enc) (slice_from 32 enc)
    = Some p.
Proof.
  unfold decryptImage, catch_rethrow_as. intros H.
  destruct (gcm_open _ _ _ _ _ _); congruence.
Qed.

End Retrieve.

(** C5, as the code has it. [retrieveImage] has a single failure,
    [Error "Failed to retrieve image"]. It throws it when there is no
    metadata record for the id, and when the authentication tag of the stored
    bytes does not verify, no bytes being returned; in particular, with the
    cipher calls of [node:crypto], after any single byte of the stored file
    was altered (byte [i] set to [x]), as for every stored file. For every id
    it either returns the stored metadata with the plaintext the cipher
    authenticated, or throws that one error. *)
Theorem retrieveImage_outcomes (cfg : Config) (rt : Runtime) (imageId : string) (d : Disk) :
  (jsonFiles d !! metadataPath cfg imageId = None ->
     retrieveImage cfg rt imageId d = Thrown (Error "Failed to retrieve image"))
  /\ (forall md encryptedImage,
        jsonFiles d !! metadataPath cfg imageId = Some md ->
        files d !! filePath md = Some encryptedImage ->
        gcm_open rt (encryptionKey cfg) (slice 0 16 encryptedImage) aad
          (slice 16 32 encryptedImage) (slice_from 32 encryptedImage) = None ->
        retrieveImage cfg rt imageId d = Thrown (Error "Failed to retrieve image"))
  /\ (NodeCrypto rt ->
      forall md encryptedImage (i : nat) (x : byte),
        jsonFiles d !! metadataPath cfg imageId = Some md ->
        files d !! filePath md = Some encryptedImage ->
        retrieveImage cfg rt imageId
          {| files := <[filePath md := <[i := x]> encryptedImage]> (files d);
             jsonFiles := jsonFiles d |}
        = Thrown (Error "Failed to retrieve image"))
  /\ (NodeCrypto rt ->
      retrieveImage cfg rt imageId d = Thrown (Error "Failed to retrieve image"))
  /\ ((exists md encryptedImage image,
         jsonFiles d !! metadataPath cfg imageId = Some md
         /\ files d !! filePath md = Some encryptedImage
         /\ gcm_open rt (encryptionKey cfg) (slice 0 16 encryptedImage) aad
              (slice 16 32 encryptedImage) (slice_from 32 encryptedImage) = Some image
         /\ retrieveImage cfg rt imageId d = Returned (image, md))
      \/ retrieveImage cfg rt imageId d = Thrown (Error "Failed to retrieve image")).
Proof.
  assert (forall d0, NodeCrypto rt ->
            retrieveImage cfg rt imageId d0 = Thrown (Error "Failed to retrieve image"))
    as Hnever.
  { intros d0 Hnode. unfold retrieveImage.
    destruct (jsonFiles d0 !! metadataPath cfg imageId) as [md|]; [|done].
    destruct (files d0 !! filePath md) as [enc|]; [|done].
    by rewrite decryptImage_node_crypto. }
  split; [|split; [|split; [|split]]].
  - intros H. unfold retrieveImage. by rewrite H.
  - intros md enc Hmd Hfile Hopen. unfold retrieveImage, decryptImage.
    by rewrite Hmd, Hfile, Hopen.
  - intros Hnode md enc i x Hmd Hfile. unfold retrieveImage.
    cbn [jsonFiles files]. rewrite Hmd, lookup_insert_eq.
    by rewrite decryptImage_node_crypto.
  - apply Hnever.
  - destruct (retrieveImage cfg rt imageId d) as [[image md]|e] eqn:H.
    + left. unfold retrieveImage in H.
      destruct (jsonFiles d !! metadataPath cfg imageId) as [md'|] eqn:Hmd; [|done].
      destruct (files d !! filePath md') as [enc|] eqn:Hfile; [|done].
      destruct (decryptImage cfg rt enc) as [p|] eqn:Hdec; [|done].
      simpl in H. injection H as <- <-.
      exists md', enc, p. by rewrite (decryptImage_returned _ _ _ _ Hdec).
    + right. by rewrite (retrieveImage_thrown _ _ _ _ _ H).
Qed.

Lemma retrieveImage_outcomes_witness :
  retrieveImage Fixture.config Fixture.node_runtime "img-2" Fixture.disk_stored
  = Thrown (Error "Failed to retrieve image")
  /\ retrieveImage Fixture.config Fixture.node_runtime "img-1"
       {| files := <[filePath (metadata Fixture.stored_result) :=
                       <[33%nat := xff]> Fixture.stored_bytes]> (files Fixture.disk_stored);
          jsonFiles := jsonFiles Fixture.disk_stored |}
     = Thrown (Error "Failed to retrieve image").
Proof.
  split.
  - apply (proj1 (retrieveImage_outcomes Fixture.config Fixture.node_runtime "img-2"
                    Fixture.disk_stored)).
    by vm_compute.
  - destruct (retrieveImage_outcomes Fixture.config Fixture.node_runtime "img-1"
                Fixture.disk_stored) as (_ & _ & Htampered & _).
    apply (Htampered fixture_node_crypto (metadata Fixture.stored_result)
             Fixture.stored_bytes 33%nat xff); by vm_compute.
Defined.

(** C5, as the claim has it, fails: an id without a metadata record and an
    id whose stored file had one byte altered make [retrieveImage] throw the
    same error, so the two causes cannot be told apart by the caller. It is so
    with a cipher that verifies the tag (the tag of the altered file does not
    verify) and with the cipher calls of [node:crypto]. *)
Lemma retrieveImage_errors_not_distinguishable :
  jsonFiles Fixture.disk_stored !! metadataPath Fixture.config "img-2" = None
  /\ (exists md encryptedImage,
        jsonFiles Fixture.disk_tampered !! metadataPath Fixture.config "img-1" = Some md
        /\ files Fixture.disk_tampered !! filePath md = Some encryptedImage
        /\ gcm_open Fixture.runtime (encryptionKey Fixture.config)
             (slice 0 16 encryptedImage) aad (slice 16 32 encryptedImage)
             (slice_from 32 encryptedImage) = None)
  /\ retrieveImage Fixture.config Fixture.runtime "img-2" Fixture.disk_stored
      = Thrown (Error "Failed to retrieve image")
  /\ retrieveImage Fixture.config Fixture.runtime "img-1" Fixture.disk_tampered
      = Thrown (Error "Failed to retrieve image")
  /\ ~ (exists notFound integrity : JsError,
          notFound <> integrity
          /\ retrieveImage Fixture.config Fixture.runtime "img-2" Fixture.disk_stored
              = Thrown notFound
          /\ retrieveImage Fixture.config Fixture.runtime "img-1" Fixture.disk_tampered
              = Thrown integrity)
  /\ retrieveImage Fixture.config Fixture.node_runtime "img-2" Fixture.disk_stored
      = Thrown (Error "Failed to retrieve image")
  /\ retrieveImage Fixture.config Fixture.node_runtime "img-1" Fixture.disk_tampered
      = Thrown (Error "Failed to retrieve image")
  /\ ~ (exists notFound integrity : JsError,
          notFound <> integrity
          /\ retrieveImage Fixture.config Fixture.node_runtime "img-2" Fixture.disk_stored
              = Thrown notFound
          /\ retrieveImage Fixture.config Fixture.node_runtime "img-1" Fixture.disk_tampered
              = Thrown integrity).
Proof.
  split; [by vm_compute|]. split.
  { eexists _, _. split; [by vm_compute|]. split; by vm_compute. }
  split; [by vm_compute|]. split; [by vm_compute|]. split.
  { intros (e1 & e2 & Hne & H1 & H2). apply Hne.
    apply retrieveImage_thrown in H1, H2. congruence. }
  split; [by vm_compute|]. split; [by vm_compute|].
  intros (e1 & e2 & Hne & H1 & H2). apply Hne.
  apply retrieveImage_thrown in H1, H2. congruence.
Qed.

End ImageStorageSpec.

(** ** Properties of the capture orchestrator *)
Module CaptureServiceSpec.
Import CaptureService.

(** *** Lists and maps *)

Lemma lookup_foldl_delete {A} (m : gmap string A) (ks : list string) (i : string) :
  foldl (fun m k => delete k m) m ks !! i = if decide (i ∈ ks) then None else m !! i.
Proof.
  revert m. induction ks as [|k ks IH]; intros m; cbn [foldl].
  - case_decide as Hin; [by apply elem_of_nil in Hin|done].
  - rewrite IH. destruct (decide (i ∈ ks)) as [Hin|Hin].
    + case_decide as Hin'; [done|]. exfalso. apply Hin'. by right.
    + destruct (decide (i = k)) as [->|Hne].
      * case_decide as Hin'; [apply lookup_delete_eq|]. exfalso. apply Hin'. by left.
      * case_decide as Hin'; [|by rewrite lookup_delete_ne].
        apply elem_of_cons in Hin' as [?|?]; done.
Qed.

Lemma length_filter_split {A} (P : A -> Prop) `{!∀ x, Decision (P x)} (l : list A) :
  (length (filter P l) + length (filter (fun x => ¬ P x) l) = length l)%nat.
Proof.
  induction l as [|x l IH]; [done|].
  rewrite !filter_cons. destruct (decide (P x)).
  - rewrite decide_False by tauto. simpl. lia.
  - rewrite decide_True by done. simpl. lia.
Qed.

Lemma size_map_filter {A} (P : string * A -> Prop) `{!∀ x, Decision (P x)}
    (m : gmap string A) :
  size (filter P m) = length (filter P (map_to_list m)).
Proof.
  rewrite map_filter_alt. apply map_size_list_to_map.
  eapply sublist_NoDup; [apply (NoDup_fst_map_to_list m)|].
  apply fmap_sublist, sublist_filter.
Qed.

Lemma length_filter_values {A} (m : list (string * option A)) :
  length (filter (fun v : option A => v ≠ None) (snd <$> m))
  = length (filter (fun kv : string * option A => is_Some (snd kv)) m).
Proof.
  induction m as [|[k v] m IH]; [done|].
  rewrite fmap_cons, !filter_cons. simpl. destruct v as [d|].
  - rewrite decide_True by done. rewrite decide_True by eauto. simpl. by rewrite IH.
  - rewrite decide_False by tauto. rewrite decide_False by (by intros [? ?]). done.
Qed.

(** [Object.values(captures).filter(c => c !== null).length] counts the
    capture types that have a descriptor. *)
Lemma count_captures_present c : count_captures c = descriptors_present c.
Proof.
  unfold count_captures, descriptors_present.
  by rewrite size_map_filter, length_filter_values.
Qed.

(** *** The expiry sweep *)

Lemma cleanup_lookup now maxAge_arg sv sid :
  activeSessions (snd (cleanupExpiredSessions now maxAge_arg sv)) !! sid =
    match activeSessions sv !! sid with
    | Some s => if expired now (default default_maxAge maxAge_arg) s then None else Some s
    | None => None
    end.
Proof.
  unfold cleanupExpiredSessions. simpl. rewrite lookup_foldl_delete.
  set (maxAge := default default_maxAge maxAge_arg).
  case_decide as Hin.
  - apply list_elem_of_fmap in Hin as ([k s] & -> & Hin).
    apply list_elem_of_filter in Hin as [Hexp Hin].
    apply elem_of_map_to_list in Hin. simpl in *. rewrite Hin.
    by destruct (expired now maxAge s).
  - destruct (activeSessions sv !! sid) as [s|] eqn:Hs; [|done].
    destruct (expired now maxAge s) eqn:Hexp; [|done].
    exfalso. apply Hin. apply list_elem_of_fmap. exists (sid, s). split; [done|].
    apply list_elem_of_filter. split; [simpl; by rewrite Hexp|].
    by apply elem_of_map_to_list.
Qed.

Lemma cleanup_sessions now maxAge_arg sv :
  activeSessions (snd (cleanupExpiredSessions now maxAge_arg sv)) =
    filter (fun entry : string * Session =>
              ¬ expired now (default default_maxAge maxAge_arg) (snd entry))
           (activeSessions sv).
Proof.
  apply map_eq. intros sid. rewrite cleanup_lookup.
  apply option_eq. intros s. rewrite map_lookup_filter_Some. simpl.
  destruct (activeSessions sv !! sid) as [s'|]; [|split; [done|by intros [? _]]].
  destruct (expired now _ s') eqn:Hexp.
  - split; [done|]. intros [Heq Hn]. injection Heq as ->.
    exfalso. apply Hn. by rewrite Hexp.
  - split; [|by intros [Heq _]]. intros Heq. injection Heq as ->.
    split; [done|]. rewrite Hexp. by intros [].
Qed.

Lemma cleanup_count now maxAge_arg sv :
  (fst (cleanupExpiredSessions now maxAge_arg sv)
   + getActiveSessionsCount (snd (cleanupExpiredSessions now maxAge_arg sv))
   = getActiveSessionsCount sv)%nat.
Proof.
  unfold getActiveSessionsCount. rewrite cleanup_sessions.
  unfold cleanupExpiredSessions. simpl.
  rewrite length_fmap, size_map_filter.
  rewrite <- (length_map_to_list (activeSessions sv)).
  apply (length_filter_split
           (fun entry : string * Session =>
              expired now (default default_maxAge maxAge_arg) (snd entry))).
Qed.

(** C7. [cleanupExpiredSessions(0)] does not remove every live session: a
    session started in the millisecond of the sweep (the session
    [startCaptureSession] registered at instant 1000, swept at instant 1000)
    has age [0], which the comparison [sessionAge > maxAge] does not count as
    exceeding [0]. The sweep returns [0] and the session is still live, the
    count of live sessions being [1] and not zero. *)
Lemma cleanup_zero_keeps_session_of_same_millisecond :
  getActiveSessionsCount Fixture.sv_started = 1%nat
  /\ createdAt (Fixture.session_of Fixture.sv_started) = 1000
  /\ fst (cleanupExpiredSessions 1000 (Some 0) Fixture.sv_started) = 0%nat
  /\ getActiveSessionsCount (snd (cleanupExpiredSessions 1000 (Some 0) Fixture.sv_started))
     = 1%nat
  /\ getSession Fixture.sid (snd (cleanupExpiredSessions 1000 (Some 0) Fixture.sv_started))
     = Returned (Fixture.session_of Fixture.sv_started).
Proof.
  split; [by vm_compute|]. split; [by vm_compute|].
  assert (expired 1000 0 (Fixture.session_of Fixture.sv_started) = false) as Hage
    by (by vm_compute).
  assert (activeSessions Fixture.sv_started !! Fixture.sid
          = Some (Fixture.session_of Fixture.sv_started)) as Hlive by (by vm_compute).
  assert (getSession Fixture.sid
            (snd (cleanupExpiredSessions 1000 (Some 0) Fixture.sv_started))
          = Returned (Fixture.session_of Fixture.sv_started)) as Hkept.
  { unfold getSession. rewrite cleanup_lookup, Hlive. simpl. by rewrite Hage. }
  split; [by vm_compute|]. split; [by vm_compute|]. exact Hkept.
Qed.

(** *** Completing a session *)

(** C4. [completeSession] on a live session whose status is not
    ['completed'] throws "Session is not ready for completion" (the message
    quoted in lower case by the documentation) and leaves the session
    registered. On a session whose status is ['completed'] it returns a
    summary whose [totalCaptures] is the number of capture types with a
    descriptor, and unregisters the session: [getSession] and a second
    [completeSession] with the same id then throw "Session not found". *)
Theorem completeSession_gate (sid : string) (sv : Service) (session : Session) :
  getSession sid sv = Returned session ->
  (status session <> "completed" ->
     completeSession sid sv
       = (Thrown (Error "Session is not ready for completion"), sv)
     /\ toLowerCase "Session is not ready for completion"
        = "session is not ready for completion"
     /\ getSession sid (snd (completeSession sid sv)) = Returned session)
  /\ (status session = "completed" ->
        exists summary sv',
          completeSession sid sv = (Returned summary, sv')
          /\ totalCaptures summary = descriptors_present (captures session)
          /\ activeSessions sv' !! sid = None
          /\ getSession sid sv' = Thrown (Error ("Session not found: " +:+ sid))
          /\ completeSession sid sv'
             = (Thrown (Error ("Session not found: " +:+ sid)), sv')).
Proof.
  intros Hget. split.
  - intros Hstatus. unfold completeSession. rewrite Hget.
    rewrite bool_decide_eq_false_2 by done. simpl. done.
  - intros Hstatus. unfold completeSession at 1. rewrite Hget.
    rewrite bool_decide_eq_true_2 by done. simpl.
    eexists _, _. split; [reflexivity|]. simpl.
    split; [apply count_captures_present|].
    assert (getSession sid (with_sessions sv (delete sid (activeSessions sv)))
            = Thrown (Error ("Session not found: " +:+ sid))) as Hgone.
    { unfold getSession. simpl. by rewrite lookup_delete_eq. }
    split; [apply lookup_delete_eq|]. split; [done|].
    unfold completeSession. by rewrite Hgone.
Qed.

Lemma completeSession_gate_witness :
  completeSession Fixture.sid Fixture.sv_started
    = (Thrown (Error "Session is not ready for completion"), Fixture.sv_started)
  /\ exists summary sv',
       completeSession Fixture.sid Fixture.sv_pedestrian_done = (Returned summary, sv')
       /\ totalCaptures summary = 1%nat
       /\ getSession Fixture.sid sv'
          = Thrown (Error "Session not found: session_1000_k3x9q2m1z").
Proof.
  split.
  - apply (completeSession_gate Fixture.sid Fixture.sv_started
             (Fixture.session_of Fixture.sv_started)); [by vm_compute|by vm_compute].
  - destruct (completeSession_gate Fixture.sid Fixture.sv_pedestrian_done
                (Fixture.session_of Fixture.sv_pedestrian_done)) as [_ H];
      [by vm_compute|].
    destruct H as (summary & sv' & Hc & Ht & _ & Hg & _); [by vm_compute|].
    exists summary, sv'. split; [done|]. split; [|done].
    rewrite Ht. by vm_compute.
Defined.

(** *** Recording a capture *)

Section Capture.
Context (cfg : ImageStorage.Config) (rt : ImageStorage.Runtime).

(** What a call of [processCapture] that returned went through. *)
Lemma processCapture_returned env sid ctype buf sv r sv' :
  processCapture cfg rt env sid ctype buf sv = (Returned r, sv') ->
  exists session storageResult disk',
    getSession sid sv = Returned session
    /\ ctype ∈ ["person"; "vehicle"]
    /\ ¬ (mode session = Some "pedestrian" ∧ ctype = "vehicle")
    /\ ImageStorage.storeImage cfg rt (store_env env) buf
         (capture_metadata env sid ctype session) (imageStorage sv)
       = (Returned storageResult, disk')
    /\ sessionComplete r
       = isSessionComplete (record_capture env ctype storageResult session)
    /\ nextAction r
       = getNextAction
           (if isSessionComplete (record_capture env ctype storageResult session)
            then mark_completed env (record_capture env ctype storageResult session)
            else record_capture env ctype storageResult session) ctype
    /\ sv' = {| activeSessions :=
                 <[sid :=
                    if isSessionComplete (record_capture env ctype storageResult session)
                    then mark_completed env (record_capture env ctype storageResult session)
                    else record_capture env ctype storageResult session]>
                 (activeSessions sv);
               imageStorage := disk' |}.
Proof.
  unfold processCapture. intros H.
  destruct (getSession sid sv) as [session|] eqn:Hget; [|done].
  destruct (bool_decide (ctype ∈ ["person"; "vehicle"])) eqn:Htype; [|done].
  apply bool_decide_eq_true_1 in Htype. simpl in H.
  destruct (bool_decide (mode session = Some "pedestrian") && bool_decide (ctype = "vehicle"))
    eqn:Hcheck; [done|].
  destruct (ImageStorage.storeImage _ _ _ _ _ _) as [[storageResult|e] disk'] eqn:Hstore;
    [|done].
  injection H as <- <-. exists session, storageResult, disk'. simpl.
  repeat split; try done.
  intros [Hm Hc]. rewrite !bool_decide_eq_true_2 in Hcheck by done. done.
Qed.

(** A call of [processCapture] that threw left every session as it was. *)
Lemma processCapture_thrown env sid ctype buf sv e sv' :
  processCapture cfg rt env sid ctype buf sv = (Thrown e, sv') ->
  activeSessions sv' = activeSessions sv.
Proof.
  unfold processCapture. intros H.
  destruct (getSession sid sv) as [session|]; [|by injection H as <- <-].
  destruct (negb _); [by injection H as <- <-|].
  destruct (_ && _); [by injection H as <- <-|].
  destruct (ImageStorage.storeImage _ _ _ _ _ _) as [[storageResult|e'] disk']; [done|].
  by injection H as <- <-.
Qed.

(** Past the two checks, [processCapture] is the storage call followed by
    the update of the session. *)
Lemma processCapture_past_checks env sid ctype buf sv session :
  getSession sid sv = Returned session ->
  ctype ∈ ["person"; "vehicle"] ->
  ¬ (mode session = Some "pedestrian" ∧ ctype = "vehicle") ->
  processCapture cfg rt env sid ctype buf sv =
    match ImageStorage.storeImage cfg rt (store_env env) buf
            (capture_metadata env sid ctype session) (imageStorage sv) with
    | (Thrown e, disk') =>
        (Thrown e, {| activeSessions := activeSessions sv; imageStorage := disk' |})
    | (Returned storageResult, disk') =>
        let session1 := record_capture env ctype storageResult session in
        let session2 :=
          if isSessionComplete session1 then mark_completed env session1 else session1 in
        (Returned {| success := true;
                     captureType := ctype;
                     cr_imageId := ImageStorage.fileId storageResult;
                     sessionComplete := isSessionComplete session1;
                     nextAction := getNextAction session2 ctype |},
         {| activeSessions := <[sid := session2]> (activeSessions sv);
            imageStorage := disk' |})
    end.
Proof.
  intros Hget Htype Hmode. unfold processCapture. rewrite Hget.
  rewrite bool_decide_eq_true_2 by done. simpl.
  destruct (bool_decide (mode session = Some "pedestrian") && bool_decide (ctype = "vehicle"))
    eqn:Hcheck; [|done].
  apply andb_true_iff in Hcheck as [Hm Hc].
  apply bool_decide_eq_true_1 in Hm, Hc. tauto.
Qed.

End Capture.

(** C2. When the storage call inside [processCapture] throws, the same error
    reaches the caller and the session is exactly as before: the sessions map
    is unchanged, so no descriptor was written and [status], [updatedAt] and
    [completedAt] are what they were. *)
Theorem processCapture_storage_failure (cfg : ImageStorage.Config)
    (rt : ImageStorage.Runtime) (env : CaptureEnv) (sid ctype : string) (buf : Buffer)
    (sv : Service) (session : Session) (e : JsError) (disk' : ImageStorage.Disk) :
  getSession sid sv = Returned session ->
  ctype ∈ ["person"; "vehicle"] ->
  ¬ (mode session = Some "pedestrian" ∧ ctype = "vehicle") ->
  ImageStorage.storeImage cfg rt (store_env env) buf
    (capture_metadata env sid ctype session) (imageStorage sv) = (Thrown e, disk') ->
  fst (processCapture cfg rt env sid ctype buf sv) = Thrown e
  /\ activeSessions (snd (processCapture cfg rt env sid ctype buf sv)) = activeSessions sv
  /\ getSession sid (snd (processCapture cfg rt env sid ctype buf sv)) = Returned session.
Proof.
  intros Hget Htype Hmode Hstore.
  rewrite (processCapture_past_checks _ _ _ _ _ _ _ _ Hget Htype Hmode), Hstore.
  simpl. repeat split; try done.
Qed.

Lemma processCapture_storage_failure_witness :
  fst (processCapture Fixture.config Fixture.runtime
         (Fixture.capture_env_disk_full 1002 "img-1") Fixture.sid "person"
         Fixture.image (Fixture.sv_mode "pedestrian"))
    = Thrown (Error "ENOSPC: no space left on device")
  /\ activeSessions
       (snd (processCapture Fixture.config Fixture.runtime
               (Fixture.capture_env_disk_full 1002 "img-1") Fixture.sid "person"
               Fixture.image (Fixture.sv_mode "pedestrian")))
     = activeSessions (Fixture.sv_mode "pedestrian")
  /\ getSession Fixture.sid
       (snd (processCapture Fixture.config Fixture.runtime
               (Fixture.capture_env_disk_full 1002 "img-1") Fixture.sid "person"
               Fixture.image (Fixture.sv_mode "pedestrian")))
     = Returned (Fixture.session_of (Fixture.sv_mode "pedestrian")).
Proof.
  apply (processCapture_storage_failure Fixture.config Fixture.runtime
           (Fixture.capture_env_disk_full 1002 "img-1") Fixture.sid "person"
           Fixture.image (Fixture.sv_mode "pedestrian")
           (Fixture.session_of (Fixture.sv_mode "pedestrian"))
           (Error "ENOSPC: no space left on device")
           (imageStorage (Fixture.sv_mode "pedestrian"))).
  - by vm_compute.
  - apply elem_of_cons. by left.
  - intros [_ H]. discriminate H.
  - by vm_compute.
Defined.

(** C3. On a live session in pedestrian mode, [processCapture] with capture
    type ['vehicle'] throws "Vehicle capture not allowed in pedestrian mode"
    and changes nothing, as claimed. With capture type ['person'] and image
    bytes that are not empty, within the size limit and decodable, it does
    not succeed: the storage call reaches [encryptImage], whose call of
    [crypto.createCipherGCM] throws, and [processCapture] throws
    "Failed to encrypt image", the service being left as it was. *)
Theorem pedestrian_person_capture_throws (cfg : ImageStorage.Config)
    (rt : ImageStorage.Runtime) (Hnode : ImageStorage.NodeCrypto rt) (env : CaptureEnv)
    (sid : string) (buf : Buffer) (sv : Service) (session : Session)
    (width height : Z) (encoded : Buffer) :
  getSession sid sv = Returned session ->
  mode session = Some "pedestrian" ->
  buf_length buf <> 0 ->
  buf_length buf <= ImageStorage.maxFileSize cfg ->
  ImageStorage.sharp_metadata rt buf = Some (width, height) ->
  ImageStorage.sharp_jpeg rt ((1920 <? width) || (1080 <? height))
    (ImageStorage.compressionQuality cfg) buf = Some encoded ->
  processCapture cfg rt env sid "person" buf sv
    = (Thrown (Error "Failed to encrypt image"), sv)
  /\ succeeded (fst (processCapture cfg rt env sid "person" buf sv)) = false
  /\ processCapture cfg rt env sid "vehicle" buf sv
     = (Thrown (Error "Vehicle capture not allowed in pedestrian mode"), sv).
Proof.
  intros Hget Hmode Hne Hmax Hmeta Hjpeg.
  assert (processCapture cfg rt env sid "person" buf sv
          = (Thrown (Error "Failed to encrypt image"), sv)) as Hperson.
  { rewrite (processCapture_past_checks cfg rt env sid "person" buf sv session Hget).
    - rewrite (ImageStorageSpec.storeImage_encrypt_failure cfg rt Hnode (store_env env) buf
                 (capture_metadata env sid "person" session) (imageStorage sv)
                 width height encoded Hne Hmax Hmeta Hjpeg).
      by destruct sv.
    - apply elem_of_cons. by left.
    - intros [_ H]. discriminate H. }
  split; [done|]. split; [by rewrite Hperson|].
  unfold processCapture. by rewrite Hget, Hmode.
Qed.

Lemma pedestrian_person_capture_throws_witness :
  processCapture Fixture.config Fixture.node_runtime (Fixture.capture_env 1002 "img-1")
    Fixture.sid "person" Fixture.image (Fixture.sv_mode "pedestrian")
  = (Thrown (Error "Failed to encrypt image"), Fixture.sv_mode "pedestrian")
  /\ mode (Fixture.session_of (Fixture.sv_mode "pedestrian")) = Some "pedestrian"
  /\ status (Fixture.session_of (Fixture.sv_mode "pedestrian")) = "active".
Proof.
  split; [|by vm_compute].
  apply (pedestrian_person_capture_throws Fixture.config Fixture.node_runtime
           ImageStorageSpec.fixture_node_crypto (Fixture.capture_env 1002 "img-1")
           Fixture.sid Fixture.image (Fixture.sv_mode "pedestrian")
           (Fixture.session_of (Fixture.sv_mode "pedestrian")) 640 480 Fixture.image);
    by vm_compute.
Defined.

(** C10. On a live session whose mode was never selected, [processCapture]
    with capture type ['person'] and image bytes that are not empty, within
    the size limit and decodable is not accepted: the call of
    [crypto.createCipherGCM] in [encryptImage] throws, [processCapture]
    throws "Failed to encrypt image", and the session is as before, with its
    status, without descriptor and without [completedAt]. *)
Theorem unset_mode_person_capture_throws (cfg : ImageStorage.Config)
    (rt : ImageStorage.Runtime) (Hnode : ImageStorage.NodeCrypto rt) (env : CaptureEnv)
    (sid : string) (buf : Buffer) (sv : Service) (session : Session)
    (width height : Z) (encoded : Buffer) :
  getSession sid sv = Returned session ->
  mode session = None ->
  buf_length buf <> 0 ->
  buf_length buf <= ImageStorage.maxFileSize cfg ->
  ImageStorage.sharp_metadata rt buf = Some (width, height) ->
  ImageStorage.sharp_jpeg rt ((1920 <? width) || (1080 <? height))
    (ImageStorage.compressionQuality cfg) buf = Some encoded ->
  processCapture cfg rt env sid "person" buf sv
    = (Thrown (Error "Failed to encrypt image"), sv)
  /\ getSession sid (snd (processCapture cfg rt env sid "person" buf sv)) = Returned session
  /\ ~ (exists r sv', processCapture cfg rt env sid "person" buf sv = (Returned r, sv')).
Proof.
  intros Hget Hmode Hne Hmax Hmeta Hjpeg.
  assert (ImageStorage.storeImage cfg rt (store_env env) buf
            (capture_metadata env sid "person" session) (imageStorage sv)
          = (Thrown (Error "Failed to encrypt image"), imageStorage sv)) as Hstore.
  { by apply (ImageStorageSpec.storeImage_encrypt_failure cfg rt Hnode (store_env env) buf
                (capture_metadata env sid "person" session) (imageStorage sv)
                width height encoded). }
  assert (processCapture cfg rt env sid "person" buf sv
          = (Thrown (Error "Failed to encrypt image"), sv)) as Hthrown.
  { unfold processCapture. rewrite Hget, Hmode. simpl. rewrite Hstore. by destruct sv. }
  split; [done|]. split; [by rewrite Hthrown|].
  intros (r & sv' & Hreturned). rewrite Hthrown in Hreturned. discriminate Hreturned.
Qed.

Lemma unset_mode_person_capture_throws_witness :
  processCapture Fixture.config Fixture.node_runtime (Fixture.capture_env 1002 "img-1")
    Fixture.sid "person" Fixture.image Fixture.sv_started
  = (Thrown (Error "Failed to encrypt image"), Fixture.sv_started)
  /\ mode (Fixture.session_of Fixture.sv_started) = None
  /\ status (Fixture.session_of Fixture.sv_started) = "active"
  /\ completedAt (Fixture.session_of Fixture.sv_started) = None.
Proof.
  split; [|by vm_compute].
  apply (unset_mode_person_capture_throws Fixture.config Fixture.node_runtime
           ImageStorageSpec.fixture_node_crypto (Fixture.capture_env 1002 "img-1")
           Fixture.sid Fixture.image Fixture.sv_started
           (Fixture.session_of Fixture.sv_started) 640 480 Fixture.image);
    by vm_compute.
Defined.

(** *** Completion of a session *)







Lemma record_capture_wf env ctype storageResult s :
  ctype ∈ ["person"; "vehicle"] -> session_wf s ->
  session_wf (record_capture env ctype storageResult s).
Proof.
  intros Htype (Hp & Hv & Hkeys). unfold session_wf. simpl.
  assert (ctype = "person" ∨ ctype = "vehicle") as Hc.
  { apply elem_of_cons in Htype as [->|Htype]; [by left|].
    apply list_elem_of_singleton in Htype. by right. }
  split; [|split].
  - rewrite lookup_insert. case_decide; eauto.
  - rewrite lookup_insert. case_decide; eauto.
  - intros k. rewrite lookup_insert. case_decide; [naive_solver|apply Hkeys].
Qed.

Lemma mark_completed_wf env s : session_wf s -> session_wf (mark_completed env s).
Proof. done. Qed.

(** *** The shape of session objects is an invariant *)

Lemma fresh_session_wf s :
  captures s = <["person" := None]> (<["vehicle" := None]> ∅) -> session_wf s.
Proof.
  intros Hcap. unfold session_wf. rewrite Hcap. split; [|split].
  - by rewrite lookup_insert_eq.
  - rewrite lookup_insert_ne by done. by rewrite lookup_insert_eq.
  - intros k [v Hk].
    destruct (decide (k = "person")) as [->|Hp]; [by left|].
    destruct (decide (k = "vehicle")) as [->|Hv]; [by right|].
    by rewrite !lookup_insert_ne, lookup_empty in Hk.
Qed.

Lemma initial_wf : service_wf initial.
Proof. intros sid s Hs. cbn [initial activeSessions] in Hs. by rewrite lookup_empty in Hs. Qed.

Section Invariant.
Context (cfg : ImageStorage.Config) (rt : ImageStorage.Runtime).

Lemma step_wf sv op : service_wf sv -> service_wf (step cfg rt sv op).
Proof.
  intros Hwf sid s. destruct op as [now_id now_created suffix lookup otp_arg
    | now sessionId mode_arg | env sessionId ctype buf | sessionId | now maxAge_arg];
    cbn [step].
  - unfold startCaptureSession. destruct otp_arg as [o|]; [|apply Hwf].
    case_decide; [apply Hwf|].
    destruct (lookup (trim o)) as [residentInfo|e]; [|apply Hwf].
    simpl. rewrite lookup_insert. case_decide; [|apply Hwf].
    intros [= <-]. by apply fresh_session_wf.
  - unfold setCaptureMode.
    destruct (getSession sessionId sv) as [session|e] eqn:Hget; [|apply Hwf].
    destruct (negb _); [apply Hwf|].
    simpl. rewrite lookup_insert. case_decide; [|apply Hwf].
    intros [= <-]. unfold getSession in Hget.
    destruct (activeSessions sv !! sessionId) as [s0|] eqn:Hs0; [|done].
    injection Hget as ->. apply (Hwf _ _ Hs0).
  - destruct (processCapture cfg rt env sessionId ctype buf sv) as [[r|e] sv'] eqn:Hcall.
    + apply processCapture_returned in Hcall
        as (session & storageResult & disk' & Hget & Htype & _ & _ & _ & _ & ->).
      simpl. rewrite lookup_insert. case_decide; [|apply Hwf].
      unfold getSession in Hget.
      destruct (activeSessions sv !! sessionId) as [s0|] eqn:Hs0; [|done].
      injection Hget as ->. intros [= <-].
      assert (session_wf (record_capture env ctype storageResult session)) as Hwf1
        by (apply record_capture_wf; [done|apply (Hwf _ _ Hs0)]).
      by destruct (isSessionComplete _).
    + apply processCapture_thrown in Hcall. simpl. rewrite Hcall. apply Hwf.
  - unfold completeSession.
    destruct (getSession sessionId sv) as [session|e]; [|apply Hwf].
    destruct (negb _); [apply Hwf|].
    simpl. intros [_ Hs]%lookup_delete_Some. apply (Hwf _ _ Hs).
  - rewrite cleanup_lookup.
    destruct (activeSessions sv !! sid) as [s0|] eqn:Hs0; [|done].
    destruct (expired _ _ _); [done|]. intros [= <-]. apply (Hwf _ _ Hs0).
Qed.

Lemma run_wf ops sv : service_wf sv -> service_wf (run cfg rt ops sv).
Proof.
  revert sv. induction ops as [|op ops IH]; intros sv Hwf; [done|].
  apply IH. by apply step_wf.
Qed.

End Invariant.




(** *** Who assigns the mode *)

Section Mode.
Context (cfg : ImageStorage.Config) (rt : ImageStorage.Runtime).

(** A call that is neither a [setCaptureMode] on the session nor a
    [startCaptureSession] generating its id leaves its mode as it was. *)
Lemma step_keeps_mode sv op sid s' :
  writes_mode_of sid op = false ->
  activeSessions (step cfg rt sv op) !! sid = Some s' ->
  exists s, activeSessions sv !! sid = Some s ∧ mode s' = mode s.
Proof.
  destruct op as [now_id now_created suffix lookup otp_arg
    | now sessionId mode_arg | env sessionId ctype buf | sessionId | now maxAge_arg];
    cbn [step writes_mode_of]; intros Hop.
  - apply bool_decide_eq_false_1 in Hop.
    unfold startCaptureSession. destruct otp_arg as [o|]; [|by eauto].
    case_decide; [by eauto|].
    destruct (lookup (trim o)) as [residentInfo|e]; [|by eauto].
    simpl. rewrite lookup_insert_ne by done. eauto.
  - apply bool_decide_eq_false_1 in Hop.
    unfold setCaptureMode.
    destruct (getSession sessionId sv) as [session|e]; [|by eauto].
    destruct (negb _); [by eauto|].
    simpl. rewrite lookup_insert_ne by done. eauto.
  - destruct (processCapture cfg rt env sessionId ctype buf sv) as [[r|e] sv'] eqn:Hcall.
    + apply processCapture_returned in Hcall
        as (session & storageResult & disk' & Hget & _ & _ & _ & _ & _ & ->).
      simpl. rewrite lookup_insert. case_decide as Hsid; [|by eauto].
      subst sessionId. unfold getSession in Hget.
      destruct (activeSessions sv !! sid) as [s0|] eqn:Hs0; [|done].
      injection Hget as ->. intros [= <-]. exists session. split; [done|].
      by destruct (isSessionComplete _).
    + apply processCapture_thrown in Hcall. simpl. rewrite Hcall. eauto.
  - unfold completeSession.
    destruct (getSession sessionId sv) as [session|e]; [|by eauto].
    destruct (negb _); [by eauto|].
    simpl. intros [_ Hs]%lookup_delete_Some. eauto.
  - rewrite cleanup_lookup.
    destruct (activeSessions sv !! sid) as [s0|] eqn:Hs0; [|done].
    destruct (expired _ _ _); [done|]. intros [= <-]. eauto.
Qed.

Lemma run_keeps_mode ops sv sid s s' :
  forallb (fun op => negb (writes_mode_of sid op)) ops = true ->
  activeSessions sv !! sid = Some s ->
  activeSessions (run cfg rt ops sv) !! sid = Some s' ->
  mode s' = mode s.
Proof.
  revert sv s. induction ops as [|op ops IH]; intros sv s Hops Hs Hs'.
  - cbn [run foldl] in Hs'. congruence.
  - cbn [forallb] in Hops. apply andb_true_iff in Hops as [Hop Hops].
    apply negb_true_iff in Hop.
    change (run cfg rt (op :: ops) sv) with (run cfg rt ops (step cfg rt sv op)) in Hs'.
    destruct (activeSessions (step cfg rt sv op) !! sid) as [s1|] eqn:Hs1.
    + destruct (step_keeps_mode _ _ _ _ Hop Hs1) as (s0 & Hs0 & Hmode).
      rewrite Hs in Hs0. injection Hs0 as <-.
      rewrite <- Hmode. by apply (IH _ _ Hops Hs1).
    + exfalso. clear IH Hs Hop. revert Hs1 Hs'. generalize (step cfg rt sv op).
      induction ops as [|op' ops IH']; intros sv1 Hnone Hsome.
      * cbn [run foldl] in Hsome. congruence.
      * cbn [forallb] in Hops. apply andb_true_iff in Hops as [Hop' Hops].
        apply negb_true_iff in Hop'.
        change (run cfg rt (op' :: ops) sv1)
          with (run cfg rt ops (step cfg rt sv1 op')) in Hsome.
        apply (IH' Hops (step cfg rt sv1 op')); [|done].
        destruct (activeSessions (step cfg rt sv1 op') !! sid) as [s2|] eqn:Hs2; [|done].
        destruct (step_keeps_mode _ _ _ _ Hop' Hs2) as (s0 & Hs0 & _). congruence.
Qed.

End Mode.

(** C8, as the code has it. The mode of a session is written by
    [setCaptureMode] only: over any sequence of calls that contains no
    [setCaptureMode] on the session (and no [startCaptureSession] generating
    its id again), the mode of the session, while it is registered, stays
    what it was. A [setCaptureMode] with a valid mode on a live session
    assigns the mode it is given, whether or not one was assigned before. *)
Theorem mode_written_only_by_setCaptureMode (cfg : ImageStorage.Config)
    (rt : ImageStorage.Runtime) :
  (forall ops sv sid s s',
     forallb (fun op => negb (writes_mode_of sid op)) ops = true ->
     activeSessions sv !! sid = Some s ->
     activeSessions (run cfg rt ops sv) !! sid = Some s' ->
     mode s' = mode s)
  /\ (forall now sid m sv s,
        getSession sid sv = Returned s ->
        m ∈ ["pedestrian"; "vehicle"] ->
        succeeded (fst (setCaptureMode now sid m sv)) = true
        ∧ exists s', getSession sid (snd (setCaptureMode now sid m sv)) = Returned s'
                     ∧ mode s' = Some m).
Proof.
  split.
  - intros ops sv sid s s'. apply run_keeps_mode.
  - intros now sid m sv s Hget Hm. unfold setCaptureMode. rewrite Hget.
    rewrite bool_decide_eq_true_2 by done. simpl. split; [done|].
    eexists. unfold getSession. simpl. rewrite lookup_insert_eq. done.
Qed.

Lemma mode_written_only_by_setCaptureMode_witness :
  mode (Fixture.session_of Fixture.sv_pedestrian_done)
  = mode (Fixture.session_of (Fixture.sv_mode "pedestrian")).
Proof.
  apply (proj1 (mode_written_only_by_setCaptureMode Fixture.config Fixture.runtime)
           [ProcessCapture (Fixture.capture_env 1002 "img-1") Fixture.sid "person"
              Fixture.image]
           (Fixture.sv_mode "pedestrian") Fixture.sid); by vm_compute.
Defined.

(** C8, as the claim has it, fails: a second [setCaptureMode] on a session
    whose mode is ['pedestrian'] returns and leaves the mode ['vehicle']. *)
Lemma setCaptureMode_reassigns_mode :
  getSession Fixture.sid (Fixture.sv_mode "pedestrian")
  = Returned (Fixture.session_of (Fixture.sv_mode "pedestrian"))
  /\ mode (Fixture.session_of (Fixture.sv_mode "pedestrian")) = Some "pedestrian"
  /\ succeeded (fst (setCaptureMode 1005 Fixture.sid "vehicle"
                       (Fixture.sv_mode "pedestrian"))) = true
  /\ mode (Fixture.session_of
             (run Fixture.config Fixture.runtime
                [SetCaptureMode 1005 Fixture.sid "vehicle"]
                (Fixture.sv_mode "pedestrian")))
     = Some "vehicle"
  /\ Some "vehicle" <> Some "pedestrian".
Proof. repeat split; by vm_compute. Qed.

End CaptureServiceSpec.

(** ** Further properties of the image storage engine *)
Module ImageStorageLaws.
Import ImageStorage.

(** *** Strings and paths *)

Lemma append_nil (b : string) : "" +:+ b = b.
Proof. reflexivity. Qed.

Lemma append_cons (x : ascii) (a b : string) : String x a +:+ b = String x (a +:+ b).
Proof. reflexivity. Qed.

Lemma append_assoc (a b c : string) : (a +:+ b) +:+ c = a +:+ (b +:+ c).
Proof. induction a as [|x a IH]; [done|]. rewrite !append_cons. by rewrite IH. Qed.

Lemma append_length (a b : string) :
  String.length (a +:+ b) = (String.length a + String.length b)%nat.
Proof. induction a as [|x a IH]; [done|]. rewrite append_cons. simpl. by rewrite IH. Qed.

Lemma append_inj_r (a b c : string) : a +:+ c = b +:+ c -> a = b.
Proof.
  revert b. induction a as [|x a IH]; intros [|y b] H; [done| | |].
  - apply (f_equal String.length) in H. rewrite append_nil, append_cons in H.
    simpl in H. rewrite append_length in H. lia.
  - apply (f_equal String.length) in H. rewrite append_nil, append_cons in H.
    simpl in H. rewrite append_length in H. lia.
  - rewrite !append_cons in H. injection H as -> H. by rewrite (IH _ H).
Qed.

Lemma strip_prefix_app (p s : string) : strip_prefix p (p +:+ s) = Some s.
Proof.
  induction p as [|c p IH]; [done|]. rewrite append_cons. simpl.
  by rewrite decide_True.
Qed.

Lemma strip_prefix_Some (p s r : string) : strip_prefix p s = Some r -> s = p +:+ r.
Proof.
  revert s. induction p as [|c p IH]; intros s H; simpl in H.
  - injection H as ->. by rewrite append_nil.
  - destruct s as [|c' s]; [done|]. case_decide; [|done]. subst c'.
    by rewrite append_cons, (IH _ H).
Qed.

Lemma ends_with_app (suffix pre : string) : ends_with suffix (pre +:+ suffix) = true.
Proof.
  induction pre as [|c pre IH].
  - rewrite append_nil.
    destruct suffix; cbn [ends_with]; by rewrite bool_decide_eq_true_2 by done.
  - rewrite append_cons. cbn [ends_with]. rewrite IH. apply orb_true_r.
Qed.

Lemma contains_char_app (c : ascii) (a b : string) :
  contains_char c (a +:+ b) = contains_char c a || contains_char c b.
Proof.
  induction a as [|x a IH]; [done|]. rewrite append_cons. simpl.
  by rewrite IH, orb_assoc.
Qed.

(** [path.join] on a last segment that it keeps as it is. *)

Lemma append_empty_r (a : string) : a +:+ "" = a.
Proof. induction a as [|x a IH]; [done|]. by rewrite append_cons, IH. Qed.

Lemma segments_nonempty (s : string) : segments s <> [].
Proof.
  induction s as [|c s IH]; [done|]. simpl.
  case_decide; [done|]. by destruct (segments s).
Qed.

Lemma segments_app_slash (a b : string) :
  segments (a +:+ String "/" b) = segments a ++ segments b.
Proof.
  induction a as [|c a IH]; [done|]. rewrite append_cons. simpl. rewrite IH.
  case_decide; [done|].
  pose proof (segments_nonempty a) as Hne. by destruct (segments a).
Qed.

Lemma segments_plain (f : string) : contains_char "/" f = false -> segments f = [f].
Proof.
  induction f as [|c f IH]; [done|]. simpl. intros H.
  apply orb_false_iff in H as [Hc Hf]. apply bool_decide_eq_false_1 in Hc.
  rewrite decide_False by done. by rewrite (IH Hf).
Qed.

Lemma push_segment_plain (allowAboveRoot : bool) (kept : list string) (f : string) :
  plain_segment f -> push_segment allowAboveRoot kept f = f :: kept.
Proof.
  intros (_ & H1 & H2 & H3). unfold push_segment. by rewrite !decide_False by done.
Qed.

Lemma push_segment_nonempty (allowAboveRoot : bool) (kept : list string) (seg : string) :
  Forall (fun s : string => s <> "") kept ->
  Forall (fun s : string => s <> "") (push_segment allowAboveRoot kept seg).
Proof.
  intros Hkept. unfold push_segment. repeat case_decide; try done.
  - destruct kept as [|last before]; [by destruct allowAboveRoot; [constructor|]|].
    case_decide.
    + destruct allowAboveRoot; [by constructor|done].
    + by inversion Hkept.
  - by constructor.
Qed.

Lemma foldl_push_segment_nonempty (allowAboveRoot : bool) (segs kept : list string) :
  Forall (fun s : string => s <> "") kept ->
  Forall (fun s : string => s <> "") (foldl (push_segment allowAboveRoot) kept segs).
Proof.
  revert kept. induction segs as [|seg segs IH]; intros kept Hkept; [done|].
  simpl. by apply IH, push_segment_nonempty.
Qed.

Lemma join_slash_cons (x y : string) (l : list string) :
  join_slash (x :: y :: l) = x +:+ "/" +:+ join_slash (y :: l).
Proof. reflexivity. Qed.

Lemma join_slash_snoc (l : list string) (f : string) :
  l <> [] -> join_slash (l ++ [f]) = join_slash l +:+ "/" +:+ f.
Proof.
  induction l as [|x l IH]; [done|]. intros _.
  destruct l as [|y l]; [done|].
  change ((x :: y :: l) ++ [f]) with (x :: y :: (l ++ [f])).
  rewrite !join_slash_cons. change (y :: l ++ [f]) with ((y :: l) ++ [f]).
  rewrite IH by done. by rewrite !append_assoc.
Qed.

Lemma join_slash_nonempty (l : list string) :
  l <> [] -> Forall (fun s : string => s <> "") l -> join_slash l <> "".
Proof.
  destruct l as [|x l]; [done|]. intros _ Hall. inversion Hall as [|? ? Hx _]; subst.
  destruct x as [|c x]; [done|]. by destruct l.
Qed.

Lemma starts_with_slash_app (q r : string) :
  q <> "" -> starts_with_slash (q +:+ r) = starts_with_slash q.
Proof. by destruct q. Qed.

Lemma ends_with_slash_app (a f : string) :
  f <> "" -> ends_with "/" (a +:+ f) = ends_with "/" f.
Proof.
  intros Hf. induction a as [|c a IH]; [done|]. rewrite append_cons.
  cbn [ends_with]. rewrite IH.
  rewrite bool_decide_eq_false_2; [done|].
  intros Heq. injection Heq as _ Heq. by destruct a, f.
Qed.

Lemma ends_with_slash_plain (f : string) :
  contains_char "/" f = false -> ends_with "/" f = false.
Proof.
  induction f as [|c f IH]; [done|]. simpl. intros H.
  apply orb_false_iff in H as [Hc Hf]. apply bool_decide_eq_false_1 in Hc.
  rewrite (IH Hf), orb_false_r. apply bool_decide_eq_false_2. congruence.
Qed.

Lemma reverse_not_nil {A} (l : list A) : l <> [] -> reverse l <> [].
Proof.
  intros Hl Hrev. apply (f_equal length) in Hrev. rewrite length_reverse in Hrev.
  by destruct l.
Qed.

Lemma normalize_snoc (q f : string) :
  q <> "" ->
  ends_with "/" q = false ->
  foldl (push_segment (negb (starts_with_slash q))) [] (segments q) <> [] ->
  plain_segment f ->
  normalize (q +:+ "/" +:+ f) = normalize q +:+ "/" +:+ f.
Proof.
  intros Hq Htrail Hkept Hf. pose proof Hf as (Hslash & Hne & _).
  unfold normalize.
  rewrite (decide_False (P := q = "")) by done.
  rewrite decide_False by (by destruct q).
  rewrite starts_with_slash_app by done.
  rewrite ends_with_slash_app by (by destruct f).
  rewrite (ends_with_slash_app "/" f) by done.
  rewrite (ends_with_slash_plain f Hslash), Htrail.
  change ("/" +:+ f) with (String "/" f).
  rewrite segments_app_slash, (segments_plain f Hslash), foldl_app. cbn [foldl].
  rewrite push_segment_plain by done.
  set (kept := foldl (push_segment (negb (starts_with_slash q))) [] (segments q)) in *.
  rewrite reverse_cons, join_slash_snoc by (by apply reverse_not_nil).
  assert (join_slash (reverse kept) <> "") as Hjoined.
  { apply join_slash_nonempty; [by apply reverse_not_nil|].
    apply Forall_reverse. by apply foldl_push_segment_nonempty. }
  rewrite (decide_False (P := join_slash (reverse kept) = "")) by done.
  rewrite decide_False by (by destruct (join_slash (reverse kept))).
  rewrite !append_empty_r. by rewrite !append_assoc.
Qed.

Lemma path_join_in_dir (dir sub file : string) :
  plain_segment sub -> plain_segment file ->
  path_join [dir; sub; file] = path_join [dir; sub] +:+ "/" +:+ file.
Proof.
  intros Hsub Hfile.
  pose proof Hsub as (Hsub_slash & Hsub_ne & _). pose proof Hfile as (_ & Hfile_ne & _).
  assert (forall kept allow, foldl (push_segment allow) kept [sub] <> []) as Hpush.
  { intros kept allow. cbn [foldl]. by rewrite push_segment_plain. }
  unfold path_join. destruct (decide (dir = "")) as [->|Hdir].
  - replace (filter (fun arg : string => arg <> "") [""; sub; file]) with [sub; file]
      by (rewrite filter_cons_False by (by intros H; apply H);
          by rewrite !filter_cons_True, filter_nil by done).
    replace (filter (fun arg : string => arg <> "") [""; sub]) with [sub]
      by (rewrite filter_cons_False by (by intros H; apply H);
          by rewrite !filter_cons_True, filter_nil by done).
    change (join_slash [sub; file]) with (sub +:+ "/" +:+ file).
    change (join_slash [sub]) with sub.
    apply normalize_snoc; [done|by apply ends_with_slash_plain| |done].
    by rewrite (segments_plain sub Hsub_slash).
  - replace (filter (fun arg : string => arg <> "") [dir; sub; file])
      with [dir; sub; file] by (by rewrite !filter_cons_True, filter_nil by done).
    replace (filter (fun arg : string => arg <> "") [dir; sub]) with [dir; sub]
      by (by rewrite !filter_cons_True, filter_nil by done).
    change (join_slash [dir; sub; file]) with (dir +:+ "/" +:+ sub +:+ "/" +:+ file).
    change (join_slash [dir; sub]) with (dir +:+ "/" +:+ sub).
    replace (dir +:+ "/" +:+ sub +:+ "/" +:+ file)
      with ((dir +:+ "/" +:+ sub) +:+ "/" +:+ file) by (by rewrite !append_assoc).
    apply normalize_snoc; [by destruct dir| | |done].
    + rewrite ends_with_slash_app by (by destruct sub).
      rewrite (ends_with_slash_app "/" sub) by done.
      by apply ends_with_slash_plain.
    + change ("/" +:+ sub) with (String "/" sub).
      rewrite segments_app_slash, (segments_plain sub Hsub_slash), foldl_app.
      apply Hpush.
Qed.

Lemma plain_segment_suffixed (name suffix : string) :
  contains_char "/" name = false ->
  contains_char "/" suffix = false ->
  (3 <= String.length suffix)%nat ->
  plain_segment (name +:+ suffix).
Proof.
  intros Hname Hsuffix Hlen. split; [by rewrite contains_char_app, Hname, Hsuffix|].
  repeat split; intros Heq; apply (f_equal String.length) in Heq;
    rewrite append_length in Heq; simpl in Heq; lia.
Qed.

Section Paths.
Context (cfg : Config).

(** The metadata file of an id without a slash lies directly in the metadata
    directory, under the name [<id>.json]. *)
Lemma metadataPath_in_dir (imageId : string) :
  contains_char "/" imageId = false ->
  metadataPath cfg imageId = (metadataDir cfg +:+ "/") +:+ (imageId +:+ ".json").
Proof.
  intros Hslash. unfold metadataPath, metadataDir.
  rewrite path_join_in_dir; [by rewrite !append_assoc|by repeat split|].
  by apply plain_segment_suffixed; [| |simpl; lia].
Qed.

Lemma metadataPath_inj (a b : string) :
  contains_char "/" a = false -> contains_char "/" b = false ->
  metadataPath cfg a = metadataPath cfg b -> a = b.
Proof.
  intros Ha Hb. rewrite !metadataPath_in_dir by done. intros H.
  apply (inj (String.append _)) in H. by apply append_inj_r in H.
Qed.

(** What [fs.readdir] lists. *)
Lemma elem_of_readdir_metadata (d : Disk) (file : string) (md : ImageMetadata) :
  (file, md) ∈ readdir_metadata cfg d
  <-> jsonFiles d !! ((metadataDir cfg +:+ "/") +:+ file) = Some md
      ∧ contains_char "/" file = false.
Proof.
  unfold readdir_metadata. rewrite list_elem_of_omap. split.
  - intros ([path md'] & Hin & Hf). apply elem_of_map_to_list in Hin. simpl in Hf.
    destruct (strip_prefix _ path) as [file'|] eqn:Hstrip; [|done].
    destruct (contains_char "/" file') eqn:Hslash; [done|].
    injection Hf as <- <-. apply strip_prefix_Some in Hstrip. by subst path.
  - intros [Hlook Hslash]. exists ((metadataDir cfg +:+ "/") +:+ file, md).
    split; [by apply elem_of_map_to_list|]. simpl.
    by rewrite strip_prefix_app, Hslash.
Qed.

Lemma elem_of_json_entries (d : Disk) (file : string) (md : ImageMetadata) :
  (file, md) ∈ json_entries cfg d
  <-> jsonFiles d !! ((metadataDir cfg +:+ "/") +:+ file) = Some md
      ∧ contains_char "/" file = false
      ∧ ends_with ".json" file = true.
Proof.
  unfold json_entries. rewrite list_elem_of_filter, elem_of_readdir_metadata. simpl.
  split.
  - intros (He & Hl & Hs). repeat split; try done. by apply Is_true_true.
  - intros (Hl & Hs & He). repeat split; try done. by apply Is_true_true.
Qed.

(** The record of an image id without a slash is among the entries scanned. *)
Lemma record_scanned (d : Disk) (imageId : string) (md : ImageMetadata) :
  contains_char "/" imageId = false ->
  jsonFiles d !! metadataPath cfg imageId = Some md ->
  (imageId +:+ ".json", md) ∈ json_entries cfg d.
Proof.
  intros Hslash Hlook. apply elem_of_json_entries.
  rewrite <- metadataPath_in_dir by done. split; [done|]. split.
  - by rewrite contains_char_app, Hslash.
  - apply ends_with_app.
Qed.

End Paths.

(** *** Storing *)

(** X1. [storeImage] rejects an empty buffer with "Image buffer is empty" and
    a buffer longer than [maxFileSize] with the size message, in both cases
    before anything is written: the disk is unchanged. *)
Theorem storeImage_rejects_bad_size (cfg : Config) (rt : Runtime) (env : StoreEnv) (buf : Buffer) (req : StoreRequest)
    (d : Disk) :
  (buf = [] ->
     storeImage cfg rt env buf req d = (Thrown (Error "Image buffer is empty"), d))
  /\ (buf <> [] -> maxFileSize cfg < buf_length buf ->
      storeImage cfg rt env buf req d
      = (Thrown (Error ("Image size exceeds maximum allowed size of "
                        +:+ pretty (maxFileSize cfg) +:+ " bytes")), d)).
Proof.
  split.
  - intros ->. reflexivity.
  - intros Hne Hmax. unfold storeImage.
    rewrite decide_False by (destruct buf; [done|unfold buf_length; simpl; lia]).
    by rewrite decide_True.
Qed.

(** X2. There is no rollback: when the image was processed, encrypted and
    written and the write of the metadata then fails, [storeImage] throws
    "Failed to save image metadata" and the encrypted file stays on the disk
    under the path of the request, without a metadata record. *)
Theorem storeImage_no_rollback (cfg : Config) (rt : Runtime) (env : StoreEnv)
    (buf : Buffer) (req : StoreRequest) (d : Disk) (processed encrypted : Buffer)
    (err : JsError) :
  buf_length buf <> 0 ->
  buf_length buf <= maxFileSize cfg ->
  processImage cfg rt buf = Returned processed ->
  encryptImage cfg rt (env_iv env) processed = Returned encrypted ->
  env_writeFile_error env = None ->
  env_writeJson_error env = Some err ->
  jsonFiles d !! metadataPath cfg (env_uuid env) = None ->
  fst (storeImage cfg rt env buf req d) = Thrown (Error "Failed to save image metadata")
  /\ files (snd (storeImage cfg rt env buf req d)) !! stored_path cfg rt env req
     = Some encrypted
  /\ jsonFiles (snd (storeImage cfg rt env buf req d)) !! metadataPath cfg (env_uuid env)
     = None.
Proof.
  intros Hne Hmax Hprocessed Hencrypted Hfile Hjson Hfresh.
  unfold storeImage, saveMetadata.
  rewrite decide_False by done. rewrite decide_False by lia.
  rewrite Hprocessed, Hencrypted, Hfile, Hjson. cbn [fst snd files jsonFiles].
  split; [done|]. split; [|done]. unfold stored_path, stored_filename.
  apply lookup_insert_eq.
Qed.

Lemma storeImage_no_rollback_witness :
  fst (storeImage Fixture.config Fixture.runtime Fixture.store_env_json_fails
         Fixture.image Fixture.request empty_disk)
  = Thrown (Error "Failed to save image metadata")
  /\ is_Some (files (snd (storeImage Fixture.config Fixture.runtime
                            Fixture.store_env_json_fails Fixture.image Fixture.request
                            empty_disk))
              !! "storage/images/person/img-9_1700000000000.jpg").
Proof.
  destruct (storeImage_no_rollback Fixture.config Fixture.runtime
              Fixture.store_env_json_fails Fixture.image Fixture.request empty_disk
              Fixture.image Fixture.stored_bytes (Error "EACCES: permission denied"))
    as (Hthrown & Hfile & _); try (by vm_compute).
  split; [done|]. exists Fixture.stored_bytes. rewrite <- Hfile. by vm_compute.
Defined.

(** X3. When [storeImage] returns, the record saved under the returned id is
    the returned metadata, it points at the file that was written, and its
    [checksum] is the digest of exactly the bytes now in that file. *)
Theorem storeImage_persists_record (cfg : Config) (rt : Runtime) (env : StoreEnv)
    (buf : Buffer) (req : StoreRequest) (d d' : Disk) (r : StoreResult) :
  storeImage cfg rt env buf req d = (Returned r, d') ->
  jsonFiles d' !! metadataPath cfg (fileId r) = Some (metadata r)
  /\ id (metadata r) = fileId r
  /\ filePath (metadata r) = sr_filePath r
  /\ exists encryptedImage,
       files d' !! filePath (metadata r) = Some encryptedImage
       /\ checksum (metadata r) = sha256_hex rt encryptedImage
       /\ snap_id (residentInfo (metadata r)) = res_id (req_residentInfo req).
Proof.
  unfold storeImage, saveMetadata. intros H.
  repeat (case_decide; [done|]).
  destruct (processImage cfg rt buf); [|done].
  destruct (encryptImage cfg rt (env_iv env) _) as [enc|]; [|done].
  destruct (env_writeFile_error env); [done|].
  destruct (env_writeJson_error env); [done|].
  injection H as <- <-. simpl.
  split; [apply lookup_insert_eq|]. split; [done|]. split; [done|].
  exists enc. split; [apply lookup_insert_eq|done].
Qed.

Lemma storeImage_persists_record_witness :
  jsonFiles Fixture.disk_stored !! metadataPath Fixture.config "img-1"
  = Some (metadata Fixture.stored_result).
Proof.
  apply (storeImage_persists_record Fixture.config Fixture.runtime
           (Fixture.store_env_ok "img-1") Fixture.image Fixture.request empty_disk
           Fixture.disk_stored Fixture.stored_result).
  by vm_compute.
Defined.

(** X4. With the cipher calls of [node:crypto], [storeImage] never returns:
    whatever the buffer, it throws "Image buffer is empty", the size message,
    "Failed to process image" or "Failed to encrypt image", and the disk is
    as it was: no image file and no metadata record is ever written. *)
Theorem storeImage_never_returns (cfg : Config) (rt : Runtime) (Hnode : NodeCrypto rt)
    (env : StoreEnv) (buf : Buffer) (req : StoreRequest) (d : Disk) :
  exists e,
    storeImage cfg rt env buf req d = (Thrown e, d)
    /\ e ∈ [Error "Image buffer is empty";
            Error ("Image size exceeds maximum allowed size of "
                   +:+ pretty (maxFileSize cfg) +:+ " bytes");
            Error "Failed to process image";
            Error "Failed to encrypt image"].
Proof.
  unfold storeImage.
  case_decide; [eexists; split; [done|]; apply elem_of_cons; by left|].
  case_decide;
    [eexists; split; [done|]; apply elem_of_cons; right; apply elem_of_cons; by left|].
  unfold processImage, catch_rethrow_as.
  destruct (sharp_metadata rt buf) as [[width height]|].
  - destruct (sharp_jpeg rt _ _ buf) as [encoded|].
    + unfold encryptImage, catch_rethrow_as. rewrite createCipherGCM_throws.
      eexists. split; [done|]. do 3 (apply elem_of_cons; right). apply elem_of_cons. by left.
    + eexists. split; [done|]. do 2 (apply elem_of_cons; right). apply elem_of_cons. by left.
  - eexists. split; [done|]. do 2 (apply elem_of_cons; right). apply elem_of_cons. by left.
Qed.

Lemma storeImage_never_returns_witness :
  exists e,
    storeImage Fixture.config Fixture.node_runtime (Fixture.store_env_ok "img-1")
      Fixture.image Fixture.request empty_disk = (Thrown e, empty_disk)
    /\ e ∈ [Error "Image buffer is empty";
            Error ("Image size exceeds maximum allowed size of "
                   +:+ pretty (maxFileSize Fixture.config) +:+ " bytes");
            Error "Failed to process image";
            Error "Failed to encrypt image"].
Proof.
  apply (storeImage_never_returns Fixture.config Fixture.node_runtime
           ImageStorageSpec.fixture_node_crypto (Fixture.store_env_ok "img-1")
           Fixture.image Fixture.request empty_disk).
Defined.

(** X5. Storing an image does not disturb the others: after a [storeImage]
    that returned, [retrieveImage] gives what it gave before for every id
    whose metadata file and whose image file are not one of the two files the
    call wrote. (Two ids can name one metadata file: [path.join] normalises
    [./a] to [a].) *)
Theorem storeImage_keeps_other_images (cfg : Config) (rt : Runtime) (env : StoreEnv)
    (buf : Buffer) (req : StoreRequest) (d d' : Disk) (r : StoreResult)
    (imageId : string) :
  storeImage cfg rt env buf req d = (Returned r, d') ->
  metadataPath cfg imageId <> metadataPath cfg (fileId r) ->
  metadataPath cfg imageId <> sr_filePath r ->
  (forall md, jsonFiles d !! metadataPath cfg imageId = Some md ->
              filePath md <> sr_filePath r
              /\ filePath md <> metadataPath cfg (fileId r)) ->
  retrieveImage cfg rt imageId d' = retrieveImage cfg rt imageId d.
Proof.
  intros Hstore Hid _ Hfile.
  destruct (ImageStorageSpec.storeImage_returned _ _ _ _ _ _ _ _ Hstore)
    as (processed & encrypted & _ & _ & _ & _ & _ & _ & _ & _ & _ & _ & Hfiles & Hjson).
  unfold retrieveImage. rewrite Hjson, Hfiles.
  rewrite lookup_insert_ne by done.
  destruct (jsonFiles d !! metadataPath cfg imageId) as [md|] eqn:Hmd; [|done].
  by rewrite lookup_insert_ne by (apply not_eq_sym, (Hfile md); done).
Qed.

Lemma storeImage_keeps_other_images_witness :
  retrieveImage Fixture.config Fixture.runtime "img-1" Fixture.disk_two
  = retrieveImage Fixture.config Fixture.runtime "img-1" Fixture.disk_stored.
Proof.
  apply (storeImage_keeps_other_images Fixture.config Fixture.runtime
           (Fixture.store_env_ok "img-2") Fixture.image Fixture.request_vehicle
           Fixture.disk_stored Fixture.disk_two
           (fst (Fixture.store_two)) "img-1").
  - by vm_compute.
  - by vm_compute.
  - by vm_compute.
  - intros md Hmd.
    assert (jsonFiles Fixture.disk_stored !! metadataPath Fixture.config "img-1"
            = Some (metadata Fixture.stored_result)) as Hrec by (by vm_compute).
    rewrite Hrec in Hmd. injection Hmd as <-. by vm_compute.
Defined.

(** *** Deleting *)

(** X6. A [deleteImage] that returned, on a record that points at an image
    file of the disk, gives [true]; the record and the file it pointed at are
    gone, every other metadata file and every other image file is untouched;
    afterwards [retrieveImage] of the id fails and a second [deleteImage] of
    it throws. *)
Theorem deleteImage_removes (cfg : Config) (rt : Runtime) (env : DeleteEnv)
    (imageId : string) (d d' : Disk) (b : bool) (md : ImageMetadata) :
  deleteImage cfg env imageId d = (Returned b, d') ->
  jsonFiles d !! metadataPath cfg imageId = Some md ->
  is_Some (files d !! filePath md) ->
  jsonFiles d !! filePath md = None ->
  b = true
  /\ files d' !! filePath md = None
  /\ jsonFiles d' !! metadataPath cfg imageId = None
  /\ (forall path, path <> filePath md -> files d' !! path = files d !! path)
  /\ (forall path, path <> metadataPath cfg imageId ->
        jsonFiles d' !! path = jsonFiles d !! path)
  /\ retrieveImage cfg rt imageId d' = Thrown (Error "Failed to retrieve image")
  /\ (forall env', deleteImage cfg env' imageId d'
                   = (Thrown (Error "Failed to delete image"), d')).
Proof.
  unfold deleteImage at 1. intros H Hmd _ _. rewrite Hmd in H.
  destruct (env_removeFile_error env); [done|].
  destruct (env_removeJson_error env); [done|].
  injection H as <- <-. simpl.
  split; [done|]. split; [apply lookup_delete_eq|].
  split; [apply lookup_delete_eq|]. split.
  - intros path Hpath. by apply lookup_delete_ne.
  - split; [intros path Hpath; by apply lookup_delete_ne|]. split.
    + unfold retrieveImage. simpl. by rewrite lookup_delete_eq.
    + intros env'. unfold deleteImage. simpl. by rewrite lookup_delete_eq.
Qed.

Lemma deleteImage_removes_witness :
  retrieveImage Fixture.config Fixture.runtime "img-1"
    (snd (deleteImage Fixture.config Fixture.delete_env_ok "img-1" Fixture.disk_stored))
  = Thrown (Error "Failed to retrieve image").
Proof.
  apply (deleteImage_removes Fixture.config Fixture.runtime Fixture.delete_env_ok "img-1"
           Fixture.disk_stored _ true (metadata Fixture.stored_result)).
  - by vm_compute.
  - by vm_compute.
  - exists Fixture.stored_bytes. by vm_compute.
  - by vm_compute.
Defined.

(** X7. Round trip: deleting an image right after it was stored gives back
    the disk as it was before the store, provided the two paths the store
    wrote held nothing before and the two removals go through. *)
Theorem storeImage_then_deleteImage (cfg : Config) (rt : Runtime) (env : StoreEnv)
    (denv : DeleteEnv) (buf : Buffer) (req : StoreRequest) (d d' : Disk)
    (r : StoreResult) :
  storeImage cfg rt env buf req d = (Returned r, d') ->
  files d !! sr_filePath r = None ->
  jsonFiles d !! sr_filePath r = None ->
  files d !! metadataPath cfg (fileId r) = None ->
  jsonFiles d !! metadataPath cfg (fileId r) = None ->
  env_removeFile_error denv = None ->
  env_removeJson_error denv = None ->
  deleteImage cfg denv (fileId r) d' = (Returned true, d).
Proof.
  intros Hstore Hfile _ _ Hjson Hr1 Hr2.
  destruct (ImageStorageSpec.storeImage_returned _ _ _ _ _ _ _ _ Hstore)
    as (processed & encrypted & _ & _ & _ & _ & _ & _ & Hpath & _ & _ & _ & Hfiles & Hrec).
  unfold deleteImage. rewrite Hrec, lookup_insert_eq, Hr1, Hr2. simpl.
  rewrite ?Hrec, ?Hfiles, ?Hpath.
  rewrite !delete_insert_id by done. by destruct d.
Qed.

Lemma storeImage_then_deleteImage_witness :
  deleteImage Fixture.config Fixture.delete_env_ok (fileId Fixture.stored_result)
    Fixture.disk_stored
  = (Returned true, empty_disk).
Proof.
  apply (storeImage_then_deleteImage Fixture.config Fixture.runtime
           (Fixture.store_env_ok "img-1") Fixture.delete_env_ok Fixture.image
           Fixture.request empty_disk Fixture.disk_stored Fixture.stored_result);
    by vm_compute.
Defined.

(** *** Listing the images of a resident *)

#[local] Instance newest_first_trans : Transitive newest_first.
Proof. intros a b c. unfold newest_first. lia. Qed.

#[local] Instance newest_first_total : Total newest_first.
Proof. intros a b. unfold newest_first. lia. Qed.

Lemma foldl_collect_image (residentId : string) (l : list (string * ImageMetadata))
    (acc : list ImageMetadata) :
  foldl (collect_image residentId) acc l
  = acc ++ filter (fun md => snap_id (residentInfo md) = residentId)
             (snd <$> filter (fun entry : string * ImageMetadata =>
                                ends_with ".json" (fst entry)) l).
Proof.
  revert acc. induction l as [|[file md] l IH]; intros acc.
  - simpl. by rewrite app_nil_r.
  - cbn [foldl]. rewrite IH, filter_cons. unfold collect_image. cbn [fst snd].
    destruct (ends_with ".json" file) eqn:Hjson.
    + destruct (decide (Is_true true)) as [_|Hn]; [|by destruct Hn].
      rewrite fmap_cons, filter_cons. cbn [snd].
      destruct (decide (snap_id (residentInfo md) = residentId));
        [by rewrite <- app_assoc|done].
    + by destruct (decide (Is_true false)) as [[]|_].
Qed.

Lemma StronglySorted_lookup {A} (R : relation A) (l : list A) (i j : nat) (a b : A) :
  StronglySorted R l -> (i < j)%nat -> l !! i = Some a -> l !! j = Some b -> R a b.
Proof.
  intros Hsorted. revert i j. induction Hsorted as [|x l Hsorted IH Hall]; intros i j Hij Ha Hb.
  - by rewrite lookup_nil in Ha.
  - destruct j as [|j]; [lia|]. destruct i as [|i].
    + simpl in Ha, Hb. injection Ha as <-.
      rewrite Forall_forall in Hall. apply Hall. by eapply list_elem_of_lookup_2.
    + simpl in Ha, Hb. apply (IH i j); [lia|done|done].
Qed.

(** X8. [getImagesByResident] returns exactly the records of the metadata
    files (name ending in [.json], directly in the metadata directory) whose
    resident id is the one asked for, each as often as it is stored, ordered
    newest first: a record never comes after one with a later timestamp. When
    the directory cannot be read it throws
    "Failed to retrieve resident images". *)
Theorem getImagesByResident_result (cfg : Config) (residentId : string) (d : Disk) :
  (exists images,
     getImagesByResident cfg None residentId d = Returned images
     /\ images ≡ₚ filter (fun md => snap_id (residentInfo md) = residentId)
                    (snd <$> json_entries cfg d)
     /\ (forall md, md ∈ images <->
           snap_id (residentInfo md) = residentId
           ∧ exists file,
               jsonFiles d !! ((metadataDir cfg +:+ "/") +:+ file) = Some md
               ∧ contains_char "/" file = false
               ∧ ends_with ".json" file = true)
     /\ (forall i j a b, (i < j)%nat -> images !! i = Some a -> images !! j = Some b ->
           timestamp b <= timestamp a))
  /\ (forall e, getImagesByResident cfg (Some e) residentId d
               = Thrown (Error "Failed to retrieve resident images")).
Proof.
  split; [|done].
  unfold getImagesByResident. simpl. rewrite foldl_collect_image. simpl.
  fold (json_entries cfg d).
  set (matching := filter _ (snd <$> json_entries cfg d)).
  exists (merge_sort newest_first matching).
  split; [done|]. split; [apply merge_sort_Permutation|]. split.
  - intros md. rewrite (merge_sort_Permutation newest_first matching).
    unfold matching. rewrite list_elem_of_filter, list_elem_of_fmap. split.
    + intros (Hres & [file md'] & -> & Hin). split; [done|]. exists file.
      by apply elem_of_json_entries.
    + intros (Hres & file & Hin). split; [done|]. exists (file, md).
      split; [done|]. by apply elem_of_json_entries.
  - intros i j a b Hij Ha Hb.
    apply (StronglySorted_lookup newest_first (merge_sort newest_first matching) i j a b);
      [|done..].
    apply StronglySorted_merge_sort; apply _.
Qed.

(** The record [storeImage] saved. *)
Lemma storeImage_saved (cfg : Config) (rt : Runtime) (env : StoreEnv) (buf : Buffer)
    (req : StoreRequest) (d d' : Disk) (r : StoreResult) :
  storeImage cfg rt env buf req d = (Returned r, d') ->
  fileId r = env_uuid env
  /\ jsonFiles d' !! metadataPath cfg (fileId r) = Some (metadata r)
  /\ snap_id (residentInfo (metadata r)) = res_id (req_residentInfo req).
Proof.
  unfold storeImage, saveMetadata. intros H.
  repeat (case_decide; [done|]).
  destruct (processImage cfg rt buf); [|done].
  destruct (encryptImage cfg rt (env_iv env) _) as [enc|]; [|done].
  destruct (env_writeFile_error env); [done|].
  destruct (env_writeJson_error env); [done|].
  injection H as <- <-. simpl. split; [done|]. split; [apply lookup_insert_eq|done].
Qed.

(** X9. An image that [storeImage] stored is listed by
    [getImagesByResident] for the resident of the request (the generated id,
    a UUID, holds no slash). *)
Theorem storeImage_then_getImagesByResident (cfg : Config) (rt : Runtime)
    (env : StoreEnv) (buf : Buffer) (req : StoreRequest) (d d' : Disk) (r : StoreResult) :
  storeImage cfg rt env buf req d = (Returned r, d') ->
  contains_char "/" (env_uuid env) = false ->
  exists images,
    getImagesByResident cfg None (res_id (req_residentInfo req)) d' = Returned images
    /\ metadata r ∈ images.
Proof.
  intros Hstore Hslash.
  destruct (storeImage_saved _ _ _ _ _ _ _ _ Hstore) as (Hid & Hrec & Hres).
  unfold getImagesByResident. simpl. rewrite foldl_collect_image. simpl.
  eexists. split; [reflexivity|].
  rewrite merge_sort_Permutation. apply list_elem_of_filter. split; [done|].
  apply list_elem_of_fmap. exists (fileId r +:+ ".json", metadata r). split; [done|].
  apply record_scanned; [by rewrite Hid|done].
Qed.

Lemma storeImage_then_getImagesByResident_witness :
  exists images,
    getImagesByResident Fixture.config None "123" Fixture.disk_stored = Returned images
    /\ metadata Fixture.stored_result ∈ images.
Proof.
  apply (storeImage_then_getImagesByResident Fixture.config Fixture.runtime
           (Fixture.store_env_ok "img-1") Fixture.image Fixture.request empty_disk
           Fixture.disk_stored Fixture.stored_result); by vm_compute.
Defined.

(** *** Statistics *)

Lemma sum_file_sizes_snoc (l : list ImageMetadata) (md : ImageMetadata) :
  sum_file_sizes (l ++ [md]) = sum_file_sizes l + fileSize md.
Proof.
  unfold sum_file_sizes. induction l as [|x l IH]; simpl; [lia|]. rewrite IH. lia.
Qed.

Lemma length_filter_snoc {A} (P : A -> Prop) `{!∀ x, Decision (P x)} (l : list A) (x : A) :
  Z.of_nat (length (filter P (l ++ [x])))
  = Z.of_nat (length (filter P l)) + (if decide (P x) then 1 else 0).
Proof.
  rewrite filter_app, length_app, filter_cons, filter_nil.
  destruct (decide (P x)); simpl; lia.
Qed.

Lemma length_filter_disjoint {A} (P Q : A -> Prop) `{!∀ x, Decision (P x)}
    `{!∀ x, Decision (Q x)} (l : list A) :
  (forall x, P x -> Q x -> False) ->
  (length (filter P l) + length (filter Q l) <= length l)%nat.
Proof.
  intros Hdisj. induction l as [|x l IH]; [done|].
  rewrite !filter_cons. destruct (decide (P x)), (decide (Q x)); simpl; try lia.
  exfalso. eauto.
Qed.

Lemma count_image_agree (acc : StatsLoop) (seen : list ImageMetadata)
    (file : string) (md : ImageMetadata) :
  ends_with ".json" file = true ->
  stats_agree acc seen -> stats_agree (count_image acc (file, md)) (seen ++ [md]).
Proof.
  intros Hjson (Htotal & Hsize & Hperson & Hvehicle & Hold & Hnew & Holdest & Hnewest).
  unfold count_image. cbn [fst snd]. rewrite Hjson. unfold stats_agree. cbn.
  rewrite length_app, sum_file_sizes_snoc, !length_filter_snoc. cbn [length].
  split; [lia|]. split; [lia|].
  split; [destruct (decide (captureType md = "person")); lia|].
  split.
  { destruct (decide (captureType md = "person")) as [Hp|Hp].
    - rewrite decide_False by (rewrite Hp; done). lia.
    - destruct (decide (captureType md = "vehicle")); lia. }
  rewrite Hold, Hnew.
  split; [by destruct (oldestImage (stats acc)) as [o|]; [destruct (timestamp md <? o)|]|].
  split; [by destruct (newestImage (stats acc)) as [n|]; [destruct (n <? timestamp md)|]|].
  split.
  - destruct (oldestImage (stats acc)) as [o|].
    + destruct Holdest as [(w & Hw & Hwt) Hmin].
      destruct (Z.ltb_spec (timestamp md) o).
      * split; [exists md; split; [set_solver|done]|].
        intros x [Hx| ->%list_elem_of_singleton]%elem_of_app; [|lia].
        specialize (Hmin x Hx). lia.
      * split; [exists w; split; [set_solver|done]|].
        intros x [Hx| ->%list_elem_of_singleton]%elem_of_app; [by apply Hmin|lia].
    + subst seen. split; [exists md; split; [set_solver|done]|].
      intros x [Hx| ->%list_elem_of_singleton]%elem_of_app; [by apply elem_of_nil in Hx|lia].
  - destruct (newestImage (stats acc)) as [n|].
    + destruct Hnewest as [(w & Hw & Hwt) Hmax].
      destruct (Z.ltb_spec n (timestamp md)).
      * split; [exists md; split; [set_solver|done]|].
        intros x [Hx| ->%list_elem_of_singleton]%elem_of_app; [|lia].
        specialize (Hmax x Hx). lia.
      * split; [exists w; split; [set_solver|done]|].
        intros x [Hx| ->%list_elem_of_singleton]%elem_of_app; [by apply Hmax|lia].
    + subst seen. split; [exists md; split; [set_solver|done]|].
      intros x [Hx| ->%list_elem_of_singleton]%elem_of_app; [by apply elem_of_nil in Hx|lia].
Qed.

Lemma foldl_count_image_agree (l : list (string * ImageMetadata)) (acc : StatsLoop)
    (seen : list ImageMetadata) :
  stats_agree acc seen ->
  stats_agree (foldl count_image acc l)
    (seen ++ (snd <$> filter (fun entry : string * ImageMetadata =>
                                ends_with ".json" (fst entry)) l)).
Proof.
  revert acc seen. induction l as [|[file md] l IH]; intros acc seen Hagree.
  - simpl. by rewrite app_nil_r.
  - cbn [foldl]. rewrite filter_cons. cbn [fst].
    destruct (ends_with ".json" file) eqn:Hjson.
    + destruct (decide (Is_true true)) as [_|Hn]; [|by destruct Hn].
      rewrite fmap_cons. cbn [snd].
      replace (seen ++ md :: (filter (fun entry : string * ImageMetadata =>
                                        ends_with ".json" (fst entry)) l).*2)
        with ((seen ++ [md]) ++ (filter (fun entry : string * ImageMetadata =>
                                           ends_with ".json" (fst entry)) l).*2)
        by (by rewrite <- app_assoc).
      apply IH. by apply count_image_agree.
    + destruct (decide (Is_true false)) as [[]|_].
      apply IH. unfold count_image. cbn [fst]. by rewrite Hjson.
Qed.

(** X10. [getStorageStats] reports, over the records of the metadata files:
    their number, the sum of their [fileSize], how many have capture type
    ['person'] and how many ['vehicle'] (together never more than the total),
    and as [oldestImage] and [newestImage] the least and the greatest
    timestamp, both absent exactly when there is no record. When the
    directory cannot be read it throws "Failed to get storage statistics". *)
Theorem getStorageStats_result (cfg : Config) (d : Disk) :
  (exists st,
     getStorageStats cfg None d = Returned st
     /\ totalImages st = Z.of_nat (length (json_entries cfg d))
     /\ totalSize st = sum_file_sizes (snd <$> json_entries cfg d)
     /\ personImages st
        = Z.of_nat (length (filter (fun md => captureType md = "person")
                                   (snd <$> json_entries cfg d)))
     /\ vehicleImages st
        = Z.of_nat (length (filter (fun md => captureType md = "vehicle")
                                   (snd <$> json_entries cfg d)))
     /\ personImages st + vehicleImages st <= totalImages st
     /\ (oldestImage st = None <-> json_entries cfg d = [])
     /\ (newestImage st = None <-> json_entries cfg d = [])
     /\ (forall t, oldestImage st = Some t ->
           (exists md, md ∈ snd <$> json_entries cfg d ∧ timestamp md = t)
           ∧ forall md, md ∈ snd <$> json_entries cfg d -> t <= timestamp md)
     /\ (forall t, newestImage st = Some t ->
           (exists md, md ∈ snd <$> json_entries cfg d ∧ timestamp md = t)
           ∧ forall md, md ∈ snd <$> json_entries cfg d -> timestamp md <= t))
  /\ (forall e, getStorageStats cfg (Some e) d
               = Thrown (Error "Failed to get storage statistics")).
Proof.
  split; [|done].
  unfold getStorageStats. simpl.
  assert (stats_agree (empty_stats) []) as Hinit.
  { unfold stats_agree, empty_stats. simpl. repeat split; done. }
  pose proof (foldl_count_image_agree (readdir_metadata cfg d) _ _ Hinit) as Hagree.
  rewrite app_nil_l in Hagree. fold (json_entries cfg d) in Hagree.
  set (acc := foldl count_image empty_stats (readdir_metadata cfg d)) in *.
  destruct Hagree as (Htotal & Hsize & Hperson & Hvehicle & _ & _ & Holdest & Hnewest).
  exists (stats acc). split; [done|].
  rewrite length_fmap in Htotal.
  split; [done|]. split; [done|]. split; [done|]. split; [done|].
  split.
  { rewrite Hperson, Hvehicle, Htotal.
    pose proof (length_filter_disjoint (fun md => captureType md = "person")
                  (fun md => captureType md = "vehicle") (snd <$> json_entries cfg d)) as Hd.
    rewrite length_fmap in Hd. cut (forall x : ImageMetadata,
      captureType x = "person" -> captureType x = "vehicle" -> False); [|congruence].
    intros Hx. specialize (Hd Hx). lia. }
  split.
  { destruct (oldestImage (stats acc)).
    - split; [done|]. intros Hnil. destruct Holdest as [(w & Hw & _) _].
      rewrite Hnil in Hw. by apply elem_of_nil in Hw.
    - split; [|done]. intros _. by apply fmap_nil_inv in Holdest. }
  split.
  { destruct (newestImage (stats acc)).
    - split; [done|]. intros Hnil. destruct Hnewest as [(w & Hw & _) _].
      rewrite Hnil in Hw. by apply elem_of_nil in Hw.
    - split; [|done]. intros _. by apply fmap_nil_inv in Hnewest. }
  split.
  - intros t Ht. by rewrite Ht in Holdest.
  - intros t Ht. by rewrite Ht in Hnewest.
Qed.

Lemma omap_Permutation {A B} (f : A -> option B) (l l' : list A) :
  l ≡ₚ l' -> omap f l ≡ₚ omap f l'.
Proof.
  induction 1 as [|x l l' Hl IH|x y l|l1 l2 l3 H12 IH12 H23 IH23]; simpl.
  - done.
  - destruct (f x); [by constructor|done].
  - destruct (f x), (f y); try done. apply perm_swap.
  - by etrans.
Qed.

Lemma sum_file_sizes_Permutation (l l' : list ImageMetadata) :
  l ≡ₚ l' -> sum_file_sizes l = sum_file_sizes l'.
Proof.
  unfold sum_file_sizes.
  induction 1 as [|x l l' Hl IH|x y l|l1 l2 l3 H12 IH12 H23 IH23]; simpl; lia.
Qed.

(** The entries scanned after a record was saved under an unused id. *)
Lemma json_entries_insert (cfg : Config) (d : Disk) (imageId : string) (md : ImageMetadata) :
  contains_char "/" imageId = false ->
  jsonFiles d !! metadataPath cfg imageId = None ->
  json_entries cfg {| files := files d;
                      jsonFiles := <[metadataPath cfg imageId := md]> (jsonFiles d) |}
  ≡ₚ (imageId +:+ ".json", md) :: json_entries cfg d.
Proof.
  intros Hslash Hfresh. unfold json_entries, readdir_metadata. cbn [jsonFiles].
  rewrite (omap_Permutation _ _ _ (map_to_list_insert _ _ md Hfresh)).
  set (scan := fun entry : string * ImageMetadata =>
                 match strip_prefix (metadataDir cfg +:+ "/") (fst entry) with
                 | Some file =>
                     if contains_char "/" file then None else Some (file, snd entry)
                 | None => None
                 end).
  assert (scan (metadataPath cfg imageId, md) = Some (imageId +:+ ".json", md)) as Hscan.
  { unfold scan. cbn [fst snd].
    rewrite metadataPath_in_dir by done.
    rewrite strip_prefix_app, contains_char_app, Hslash.
    reflexivity. }
  change (omap scan ((metadataPath cfg imageId, md) :: map_to_list (jsonFiles d)))
    with (match scan (metadataPath cfg imageId, md) with
          | Some y => y :: omap scan (map_to_list (jsonFiles d))
          | None => omap scan (map_to_list (jsonFiles d))
          end).
  rewrite Hscan. rewrite filter_cons_True; [done|].
  cbn [fst]. apply Is_true_true, ends_with_app.
Qed.

(** X11. An image stored under an id that was not in use is counted by
    [getStorageStats]: [totalImages] grows by one and [totalSize] by the size
    of the stored file. *)
Theorem storeImage_then_getStorageStats (cfg : Config) (rt : Runtime) (env : StoreEnv)
    (buf : Buffer) (req : StoreRequest) (d d' : Disk) (r : StoreResult) :
  storeImage cfg rt env buf req d = (Returned r, d') ->
  contains_char "/" (env_uuid env) = false ->
  jsonFiles d !! metadataPath cfg (fileId r) = None ->
  exists st st',
    getStorageStats cfg None d = Returned st
    /\ getStorageStats cfg None d' = Returned st'
    /\ totalImages st' = totalImages st + 1
    /\ totalSize st' = totalSize st + fileSize (metadata r).
Proof.
  intros Hstore Hslash Hfresh.
  destruct (ImageStorageSpec.storeImage_returned _ _ _ _ _ _ _ _ Hstore)
    as (processed & encrypted & _ & _ & _ & _ & Hid & _ & _ & _ & _ & _ & Hfiles & Hjson).
  assert (json_entries cfg d' ≡ₚ (fileId r +:+ ".json", metadata r) :: json_entries cfg d)
    as Hperm.
  { rewrite <- (json_entries_insert cfg d (fileId r) (metadata r));
      [|by rewrite Hid|done].
    unfold json_entries, readdir_metadata. cbn [jsonFiles]. by rewrite Hjson. }
  assert (stats_agree empty_stats []) as Hinit.
  { unfold stats_agree, empty_stats. simpl. repeat split; done. }
  pose proof (foldl_count_image_agree (readdir_metadata cfg d) _ _ Hinit) as Hd.
  pose proof (foldl_count_image_agree (readdir_metadata cfg d') _ _ Hinit) as Hd'.
  rewrite app_nil_l in Hd, Hd'.
  fold (json_entries cfg d) in Hd. fold (json_entries cfg d') in Hd'.
  destruct Hd as (Htotal & Hsize & _). destruct Hd' as (Htotal' & Hsize' & _).
  unfold getStorageStats. simpl. eexists _, _. split; [reflexivity|].
  split; [reflexivity|].
  rewrite Htotal, Htotal', Hsize, Hsize'.
  rewrite (sum_file_sizes_Permutation _ _ (fmap_Permutation snd _ _ Hperm)).
  rewrite !length_fmap, (Permutation_length Hperm), fmap_cons.
  unfold sum_file_sizes. cbn [foldr length snd]. split; lia.
Qed.

Lemma storeImage_then_getStorageStats_witness :
  exists st st',
    getStorageStats Fixture.config None empty_disk = Returned st
    /\ getStorageStats Fixture.config None Fixture.disk_stored = Returned st'
    /\ totalImages st' = totalImages st + 1
    /\ totalSize st' = totalSize st + fileSize (metadata Fixture.stored_result).
Proof.
  apply (storeImage_then_getStorageStats Fixture.config Fixture.runtime
           (Fixture.store_env_ok "img-1") Fixture.image Fixture.request empty_disk
           Fixture.disk_stored Fixture.stored_result); by vm_compute.
Defined.

(** *** Ids and metadata files *)

Lemma normalize_dot_segment (q x : string) :
  q <> "" -> x <> "" ->
  normalize (q +:+ "/" +:+ "./" +:+ x) = normalize (q +:+ "/" +:+ x).
Proof.
  intros Hq Hx. unfold normalize.
  rewrite !(decide_False (P := q +:+ _ = "")) by (by destruct q).
  rewrite !starts_with_slash_app by done.
  assert (ends_with "/" (q +:+ "/" +:+ "./" +:+ x) = ends_with "/" (q +:+ "/" +:+ x))
    as ->.
  { rewrite (ends_with_slash_app q ("/" +:+ "./" +:+ x)) by done.
    rewrite (ends_with_slash_app "/" ("./" +:+ x)) by done.
    rewrite (ends_with_slash_app "./" x) by done.
    rewrite (ends_with_slash_app q ("/" +:+ x)) by done.
    by rewrite (ends_with_slash_app "/" x) by done. }
  assert (forall allow,
            foldl (push_segment allow) [] (segments (q +:+ "/" +:+ "./" +:+ x))
            = foldl (push_segment allow) [] (segments (q +:+ "/" +:+ x))) as ->; [|done].
  intros allow.
  change (q +:+ "/" +:+ "./" +:+ x) with (q +:+ String "/" ("." +:+ String "/" x)).
  change (q +:+ "/" +:+ x) with (q +:+ String "/" x).
  rewrite !segments_app_slash, !foldl_app. reflexivity.
Qed.

(** An id and the same id after [./] name the same metadata file. *)
Lemma metadataPath_dot_slash (cfg : Config) (imageId : string) :
  metadataPath cfg ("./" +:+ imageId) = metadataPath cfg imageId.
Proof.
  unfold metadataPath, path_join.
  change (("./" +:+ imageId) +:+ ".json") with ("./" +:+ (imageId +:+ ".json")).
  assert (imageId +:+ ".json" <> "") as Hne.
  { intros Heq. apply (f_equal String.length) in Heq. rewrite append_length in Heq.
    simpl in Heq. lia. }
  destruct (decide (storageDir cfg = "")) as [Hdir|Hdir].
  - rewrite Hdir.
    replace (filter (fun arg : string => arg <> "")
               [""; "metadata"; "./" +:+ imageId +:+ ".json"])
      with ["metadata"; "./" +:+ imageId +:+ ".json"]
      by (rewrite filter_cons_False by (by intros H; apply H);
          by rewrite !filter_cons_True, filter_nil by done).
    replace (filter (fun arg : string => arg <> "") [""; "metadata"; imageId +:+ ".json"])
      with ["metadata"; imageId +:+ ".json"]
      by (rewrite filter_cons_False by (by intros H; apply H);
          by rewrite !filter_cons_True, filter_nil by done).
    by apply (normalize_dot_segment "metadata").
  - replace (filter (fun arg : string => arg <> "")
               [storageDir cfg; "metadata"; "./" +:+ imageId +:+ ".json"])
      with [storageDir cfg; "metadata"; "./" +:+ imageId +:+ ".json"]
      by (by rewrite !filter_cons_True, filter_nil by done).
    replace (filter (fun arg : string => arg <> "")
               [storageDir cfg; "metadata"; imageId +:+ ".json"])
      with [storageDir cfg; "metadata"; imageId +:+ ".json"]
      by (by rewrite !filter_cons_True, filter_nil by done).
    change (join_slash [storageDir cfg; "metadata"; "./" +:+ imageId +:+ ".json"])
      with (storageDir cfg +:+ "/" +:+ "metadata" +:+ "/" +:+ "./" +:+ imageId +:+ ".json").
    change (join_slash [storageDir cfg; "metadata"; imageId +:+ ".json"])
      with (storageDir cfg +:+ "/" +:+ "metadata" +:+ "/" +:+ imageId +:+ ".json").
    replace (storageDir cfg +:+ "/" +:+ "metadata" +:+ "/" +:+ "./" +:+ imageId +:+ ".json")
      with ((storageDir cfg +:+ "/" +:+ "metadata") +:+ "/" +:+ "./" +:+ imageId +:+ ".json")
      by (by rewrite !append_assoc).
    replace (storageDir cfg +:+ "/" +:+ "metadata" +:+ "/" +:+ imageId +:+ ".json")
      with ((storageDir cfg +:+ "/" +:+ "metadata") +:+ "/" +:+ imageId +:+ ".json")
      by (by rewrite !append_assoc).
    apply normalize_dot_segment; [|done]. by destruct (storageDir cfg).
Qed.

(** X12. An image has more than one id: [path.join] normalises the path of
    the metadata file, so [retrieveImage] and [deleteImage] do for the id
    [./<id>] exactly what they do for [<id>]. *)
Theorem image_id_aliases (cfg : Config) (rt : Runtime) (env : DeleteEnv)
    (imageId : string) (d : Disk) :
  metadataPath cfg ("./" +:+ imageId) = metadataPath cfg imageId
  /\ retrieveImage cfg rt ("./" +:+ imageId) d = retrieveImage cfg rt imageId d
  /\ deleteImage cfg env ("./" +:+ imageId) d = deleteImage cfg env imageId d.
Proof.
  split; [apply metadataPath_dot_slash|].
  unfold retrieveImage, deleteImage. by rewrite metadataPath_dot_slash.
Qed.

End ImageStorageLaws.

(** ** Further properties of the capture orchestrator *)
Module CaptureServiceLaws.
Import CaptureService SessionInvariant.

(** *** Starting a session *)

Lemma trim_start_whitespace (s : string) : all_whitespace s = true -> trim_start s = "".
Proof.
  induction s as [|c s IH]; [done|]. simpl.
  intros [Hc Hs]%andb_true_iff. rewrite Hc. by apply IH.
Qed.

Lemma trim_whitespace (s : string) : all_whitespace s = true -> trim s = "".
Proof. intros H. unfold trim. by rewrite (trim_start_whitespace s H). Qed.

(** X13. [startCaptureSession] throws
    "OTP is required and must be a non-empty string" for an OTP that is
    [null], not a string, empty or made of white space only, without asking
    the directory; an error of the directory lookup reaches the caller as it
    is; and whenever [startCaptureSession] throws, no session is registered
    and nothing else changes. *)
Theorem startCaptureSession_failures (now_id now_created : Z) (suffix : string)
    (lookup : string -> Outcome ResidentInfo) (sv : Service) :
  startCaptureSession now_id now_created suffix lookup None sv
    = (Thrown (Error "OTP is required and must be a non-empty string"), sv)
  /\ (forall o, all_whitespace o = true ->
        startCaptureSession now_id now_created suffix lookup (Some o) sv
        = (Thrown (Error "OTP is required and must be a non-empty string"), sv))
  /\ (forall o e, trim o <> "" -> lookup (trim o) = Thrown e ->
        startCaptureSession now_id now_created suffix lookup (Some o) sv = (Thrown e, sv))
  /\ (forall otp e sv',
        startCaptureSession now_id now_created suffix lookup otp sv = (Thrown e, sv') ->
        sv' = sv).
Proof.
  split; [done|]. split; [|split].
  - intros o Ho. unfold startCaptureSession. rewrite (trim_whitespace o Ho).
    by rewrite decide_True.
  - intros o e Hne Hlook. unfold startCaptureSession.
    rewrite decide_False by done. by rewrite Hlook.
  - intros otp_arg e sv'. unfold startCaptureSession.
    destruct otp_arg as [o|]; [|by intros [= _ <-]].
    case_decide; [by intros [= _ <-]|].
    destruct (lookup (trim o)); [done|by intros [= _ <-]].
Qed.

(** X14. A [startCaptureSession] that returned answers the generated id and
    the status ['ready_for_mode_selection'], and has registered under that id
    a session with status ['active'], no mode, both captures [null], the
    trimmed OTP and the resident the directory returned for it. Every session
    under another id and the stored images are untouched, and when the id was
    not in use the number of live sessions grows by one. *)
Theorem startCaptureSession_registers (now_id now_created : Z) (suffix : string)
    (lookup : string -> Outcome ResidentInfo) (otp_arg : option string)
    (sv sv' : Service) (r : StartResult) :
  startCaptureSession now_id now_created suffix lookup otp_arg sv = (Returned r, sv') ->
  start_sessionId r = generateSessionId now_id suffix
  /\ start_status r = "ready_for_mode_selection"
  /\ (exists o session,
        otp_arg = Some o
        /\ lookup (trim o) = Returned (start_residentInfo r)
        /\ getSession (start_sessionId r) sv' = Returned session
        /\ id session = start_sessionId r
        /\ otp session = trim o
        /\ residentInfo session = start_residentInfo r
        /\ status session = "active"
        /\ mode session = None
        /\ createdAt session = now_created
        /\ captures session !! "person" = Some None
        /\ captures session !! "vehicle" = Some None)
  /\ (forall other, other <> start_sessionId r ->
        activeSessions sv' !! other = activeSessions sv !! other)
  /\ imageStorage sv' = imageStorage sv
  /\ (activeSessions sv !! start_sessionId r = None ->
      getActiveSessionsCount sv' = S (getActiveSessionsCount sv)).
Proof.
  unfold startCaptureSession. destruct otp_arg as [o|]; [|done].
  case_decide; [done|].
  destruct (lookup (trim o)) as [residentInfo|] eqn:Hlook; [|done].
  intros [= <- <-]. simpl.
  split; [done|]. split; [done|]. split.
  - eexists o, _. split; [done|]. split; [done|].
    split; [unfold getSession; simpl; by rewrite lookup_insert_eq|].
    simpl. repeat split; done.
  - split; [intros other Hother; by rewrite lookup_insert_ne|].
    split; [done|]. intros Hfresh. unfold getActiveSessionsCount. simpl.
    by apply map_size_insert_None.
Qed.

Lemma startCaptureSession_registers_witness :
  getActiveSessionsCount Fixture.sv_started = 1%nat.
Proof.
  destruct (startCaptureSession_registers 1000 1000 "k3x9q2m1z" Fixture.directory
              (Some "123456") initial Fixture.sv_started
              (Build_StartResult Fixture.sid Fixture.resident "ready_for_mode_selection"))
    as (_ & _ & _ & _ & _ & Hcount); [by vm_compute|].
  rewrite Hcount; [done|]. by vm_compute.
Defined.

(** *** Selecting the mode *)

(** X15. [setCaptureMode] throws "Session not found: <id>" for an id that is
    not registered and the invalid-mode message for a mode other than
    ['pedestrian'] and ['vehicle']; whenever it throws, nothing changes. *)
Theorem setCaptureMode_failures (now : Z) (sid mode_arg : string) (sv : Service) :
  (activeSessions sv !! sid = None ->
     setCaptureMode now sid mode_arg sv
     = (Thrown (Error ("Session not found: " +:+ sid)), sv))
  /\ (is_Some (activeSessions sv !! sid) ->
      mode_arg <> "pedestrian" -> mode_arg <> "vehicle" ->
      setCaptureMode now sid mode_arg sv
      = (Thrown (Error ("Invalid capture mode. Must be " +:+ double_quote +:+ "pedestrian"
                        +:+ double_quote +:+ " or " +:+ double_quote +:+ "vehicle"
                        +:+ double_quote)), sv))
  /\ (forall e sv', setCaptureMode now sid mode_arg sv = (Thrown e, sv') -> sv' = sv).
Proof.
  split; [|split].
  - intros Hnone. unfold setCaptureMode, getSession. by rewrite Hnone.
  - intros [s Hs] Hp Hv. unfold setCaptureMode, getSession. rewrite Hs.
    rewrite bool_decide_eq_false_2; [done|].
    intros [?|[?|?%elem_of_nil]%elem_of_cons]%elem_of_cons; done.
  - intros e sv'. unfold setCaptureMode.
    destruct (getSession sid sv); [|by intros [= _ <-]].
    destruct (negb _); [by intros [= _ <-]|done].
Qed.

(** X16. A [setCaptureMode] that returned answers the mode, the status
    ['ready_for_capture'] and the capture types of the mode ([person] for
    ['pedestrian'], [person, vehicle] for ['vehicle']). The session keeps its
    status, its captures, its timestamps of creation and completion: only
    [mode] and [updatedAt] are written. Other sessions and the stored images
    are untouched. *)
Theorem setCaptureMode_writes_mode_only (now : Z) (sid mode_arg : string)
    (sv sv' : Service) (r : ModeResult) :
  setCaptureMode now sid mode_arg sv = (Returned r, sv') ->
  mode_mode r = mode_arg
  /\ mode_status r = "ready_for_capture"
  /\ ((mode_arg = "pedestrian" ∧ availableCaptures r = ["person"])
      \/ (mode_arg = "vehicle" ∧ availableCaptures r = ["person"; "vehicle"]))
  /\ (exists s s',
        activeSessions sv !! sid = Some s
        /\ activeSessions sv' !! sid = Some s'
        /\ mode s' = Some mode_arg
        /\ updatedAt s' = Some now
        /\ same_but_mode s s')
  /\ (forall other, other <> sid ->
        activeSessions sv' !! other = activeSessions sv !! other)
  /\ imageStorage sv' = imageStorage sv.
Proof.
  unfold setCaptureMode, getSession.
  destruct (activeSessions sv !! sid) as [s|] eqn:Hs; [|done].
  destruct (bool_decide (mode_arg ∈ ["pedestrian"; "vehicle"])) eqn:Hmode; [|done].
  apply bool_decide_eq_true_1 in Hmode. simpl. intros [= <- <-]. simpl.
  split; [done|]. split; [done|]. split.
  - apply elem_of_cons in Hmode as [->|Hmode]; [by left|].
    apply list_elem_of_singleton in Hmode as ->. by right.
  - split.
    + eexists s, _. split; [done|]. split; [apply lookup_insert_eq|].
      simpl. repeat split; done.
    + split; [intros other Hother; by rewrite lookup_insert_ne|done].
Qed.

Lemma setCaptureMode_writes_mode_only_witness :
  exists s s',
    activeSessions Fixture.sv_vehicle_after_capture !! Fixture.sid = Some s'
    /\ activeSessions Fixture.sv_captured_without_mode !! Fixture.sid = Some s
    /\ status s' = status s.
Proof.
  destruct (setCaptureMode_writes_mode_only 1010 Fixture.sid "vehicle"
              Fixture.sv_captured_without_mode Fixture.sv_vehicle_after_capture
              (Build_ModeResult Fixture.sid "vehicle" "ready_for_capture"
                 ["person"; "vehicle"]))
    as (_ & _ & _ & (s & s' & Hs & Hs' & _ & _ & Hsame) & _); [by vm_compute|].
  exists s, s'. split; [done|]. split; [done|]. by destruct Hsame as (_ & _ & _ & H & _).
Defined.

(** *** Recording a capture *)

(** X17. [processCapture] throws "Session not found: <id>" for an id that is
    not registered, whatever the capture type, and the invalid-type message
    for a capture type other than ['person'] and ['vehicle']; in both cases
    the storage engine is not called: sessions and disk are unchanged. *)
Theorem processCapture_validation (cfg : ImageStorage.Config) (rt : ImageStorage.Runtime)
    (env : CaptureEnv) (sid ctype : string) (buf : Buffer) (sv : Service) :
  (activeSessions sv !! sid = None ->
     processCapture cfg rt env sid ctype buf sv
     = (Thrown (Error ("Session not found: " +:+ sid)), sv))
  /\ (is_Some (activeSessions sv !! sid) -> ctype <> "person" -> ctype <> "vehicle" ->
      processCapture cfg rt env sid ctype buf sv
      = (Thrown (Error ("Invalid capture type. Must be " +:+ double_quote +:+ "person"
                        +:+ double_quote +:+ " or " +:+ double_quote +:+ "vehicle"
                        +:+ double_quote)), sv)).
Proof.
  split.
  - intros Hnone. unfold processCapture, getSession. by rewrite Hnone.
  - intros [s Hs] Hp Hv. unfold processCapture, getSession. rewrite Hs.
    rewrite bool_decide_eq_false_2; [done|].
    intros [?|[?|?%elem_of_nil]%elem_of_cons]%elem_of_cons; done.
Qed.

(** What a [processCapture] that returned did, in full. *)
Lemma processCapture_effect (cfg : ImageStorage.Config) (rt : ImageStorage.Runtime)
    (env : CaptureEnv) (sid ctype : string) (buf : Buffer) (sv sv' : Service)
    (r : CaptureResult) :
  processCapture cfg rt env sid ctype buf sv = (Returned r, sv') ->
  exists session storageResult,
    activeSessions sv !! sid = Some session
    /\ ctype ∈ ["person"; "vehicle"]
    /\ ImageStorage.storeImage cfg rt (store_env env) buf
         (capture_metadata env sid ctype session) (imageStorage sv)
       = (Returned storageResult, imageStorage sv')
    /\ r = {| success := true; captureType := ctype;
              cr_imageId := ImageStorage.fileId storageResult;
              sessionComplete :=
                isSessionComplete (record_capture env ctype storageResult session);
              nextAction :=
                getNextAction
                  (if isSessionComplete (record_capture env ctype storageResult session)
                   then mark_completed env (record_capture env ctype storageResult session)
                   else record_capture env ctype storageResult session) ctype |}
    /\ activeSessions sv'
       = <[sid := if isSessionComplete (record_capture env ctype storageResult session)
                  then mark_completed env (record_capture env ctype storageResult session)
                  else record_capture env ctype storageResult session]>
           (activeSessions sv).
Proof.
  unfold processCapture, getSession. intros H.
  destruct (activeSessions sv !! sid) as [session|] eqn:Hget; [|done].
  destruct (bool_decide (ctype ∈ ["person"; "vehicle"])) eqn:Htype; [|done].
  apply bool_decide_eq_true_1 in Htype. simpl in H.
  destruct (bool_decide (mode session = Some "pedestrian") && bool_decide (ctype = "vehicle"));
    [done|].
  destruct (ImageStorage.storeImage _ _ _ _ _ _) as [[storageResult|e] disk'] eqn:Hstore;
    [|done].
  injection H as <- <-. by exists session, storageResult.
Qed.

(** X18. A [processCapture] that returned has written, in the session, the
    descriptor of the capture type (image id as returned, timestamp of the
    call), replacing an earlier descriptor of that type and leaving the other
    type as it was; it has set [updatedAt], and
    when the call answers [sessionComplete] it has set the status to
    ['completed'] and stamped [completedAt] anew, otherwise it has left both.
    Mode, OTP, resident and creation time are kept and the other sessions are
    untouched. *)
Theorem processCapture_records_descriptor (cfg : ImageStorage.Config)
    (rt : ImageStorage.Runtime) (env : CaptureEnv) (sid ctype : string) (buf : Buffer)
    (sv sv' : Service) (r : CaptureResult) :
  processCapture cfg rt env sid ctype buf sv = (Returned r, sv') ->
  success r = true
  /\ captureType r = ctype
  /\ (exists s s' desc,
        activeSessions sv !! sid = Some s
        /\ activeSessions sv' !! sid = Some s'
        /\ captures s' !! ctype = Some (Some desc)
        /\ imageId desc = cr_imageId r
        /\ timestamp desc = now_metadata env
        /\ (forall other, other <> ctype -> captures s' !! other = captures s !! other)
        /\ updatedAt s' = Some (now_updated env)
        /\ (sessionComplete r = true ->
            status s' = "completed" ∧ completedAt s' = Some (now_completed env))
        /\ (sessionComplete r = false ->
            status s' = status s ∧ completedAt s' = completedAt s)
        /\ mode s' = mode s ∧ otp s' = otp s ∧ residentInfo s' = residentInfo s
          ∧ createdAt s' = createdAt s ∧ id s' = id s)
  /\ (forall other, other <> sid ->
        activeSessions sv' !! other = activeSessions sv !! other).
Proof.
  intros H.
  destruct (processCapture_effect _ _ _ _ _ _ _ _ _ H)
    as (session & storageResult & Hs & _ & _ & -> & Hsessions).
  simpl. split; [done|]. split; [done|]. split.
  - eexists session, _, _. split; [done|].
    split; [rewrite Hsessions; apply lookup_insert_eq|].
    destruct (isSessionComplete (record_capture env ctype storageResult session));
      simpl; (split; [apply lookup_insert_eq|]); repeat split; try done;
      intros other Hother; by rewrite lookup_insert_ne.
  - intros other Hother. rewrite Hsessions. by rewrite lookup_insert_ne.
Qed.

Lemma processCapture_records_descriptor_witness :
  exists s' desc,
    activeSessions Fixture.sv_pedestrian_done !! Fixture.sid = Some s'
    /\ captures s' !! "person" = Some (Some desc)
    /\ imageId desc = "img-1".
Proof.
  destruct (processCapture_records_descriptor Fixture.config Fixture.runtime
              (Fixture.capture_env 1002 "img-1") Fixture.sid "person" Fixture.image
              (Fixture.sv_mode "pedestrian") Fixture.sv_pedestrian_done
              (Build_CaptureResult true "person" "img-1" true "complete_session"))
    as (_ & _ & (s & s' & desc & _ & Hs' & Hdesc & Hid & _) & _); [by vm_compute|].
  by exists s', desc.
Defined.

(** *** What a session keeps over its life *)

Section Life.
Context (cfg : ImageStorage.Config) (rt : ImageStorage.Runtime).

(** A relation between the states of one session that every call respects
    holds over every sequence of calls. *)
Lemma run_respects (R : Session -> Session -> Prop) (allowed : Op -> bool) (sid : string) :
  (forall s, R s s) ->
  (forall s1 s2 s3, R s1 s2 -> R s2 s3 -> R s1 s3) ->
  (forall sv op s', allowed op = true ->
     activeSessions (step cfg rt sv op) !! sid = Some s' ->
     exists s, activeSessions sv !! sid = Some s ∧ R s s') ->
  forall ops sv s s',
    forallb allowed ops = true ->
    activeSessions sv !! sid = Some s ->
    activeSessions (run cfg rt ops sv) !! sid = Some s' ->
    R s s'.
Proof.
  intros Hrefl Htrans Hstep ops.
  assert (forall sv s',
            forallb allowed ops = true ->
            activeSessions (run cfg rt ops sv) !! sid = Some s' ->
            exists s, activeSessions sv !! sid = Some s ∧ R s s') as Hrun.
  { induction ops as [|op ops IH]; intros sv s' Hops Hs'.
    - cbn [run foldl] in Hs'. eauto.
    - cbn [forallb] in Hops. apply andb_true_iff in Hops as [Hop Hops].
      change (run cfg rt (op :: ops) sv) with (run cfg rt ops (step cfg rt sv op)) in Hs'.
      destruct (IH _ _ Hops Hs') as (s1 & Hs1 & HR1).
      destruct (Hstep _ _ _ Hop Hs1) as (s0 & Hs0 & HR0). eauto. }
  intros sv s s' Hops Hs Hs'. destruct (Hrun sv s' Hops Hs') as (s0 & Hs0 & HR).
  congruence.
Qed.

Lemma keeps_refl (s : Session) : keeps s s.
Proof. by repeat split. Qed.

Lemma keeps_trans (s1 s2 s3 : Session) : keeps s1 s2 -> keeps s2 s3 -> keeps s1 s3.
Proof.
  intros (H1 & H2 & H3 & H4 & H5 & H6) (K1 & K2 & K3 & K4 & K5 & K6).
  repeat split; try congruence; eauto.
Qed.

Lemma step_keeps (sid : string) (sv : Service) (op : Op) (s' : Session) :
  negb (restarts sid op) = true ->
  activeSessions (step cfg rt sv op) !! sid = Some s' ->
  exists s, activeSessions sv !! sid = Some s ∧ keeps s s'.
Proof.
  intros Hop%negb_true_iff.
  destruct op as [now_id now_created suffix lookup otp_arg
    | now sessionId mode_arg | env sessionId ctype buf | sessionId | now maxAge_arg];
    cbn [step restarts] in *.
  - apply bool_decide_eq_false_1 in Hop.
    unfold startCaptureSession. destruct otp_arg as [o|]; [|eauto using keeps_refl].
    case_decide; [eauto using keeps_refl|].
    destruct (lookup (trim o)) as [residentInfo|e]; [|eauto using keeps_refl].
    simpl. rewrite lookup_insert_ne by done. eauto using keeps_refl.
  - unfold setCaptureMode, getSession.
    destruct (activeSessions sv !! sessionId) as [session|] eqn:Hs;
      [|eauto using keeps_refl].
    destruct (negb _); [eauto using keeps_refl|].
    simpl. rewrite lookup_insert. case_decide as Hsid; [|eauto using keeps_refl].
    subst sessionId. intros [= <-]. exists session. split; [done|]. by repeat split.
  - destruct (processCapture cfg rt env sessionId ctype buf sv) as [[r|e] sv'] eqn:Hcall.
    + destruct (processCapture_effect _ _ _ _ _ _ _ _ _ Hcall)
        as (session & storageResult & Hs & _ & _ & _ & Hsessions).
      simpl. rewrite Hsessions, lookup_insert. case_decide as Hsid; [|eauto using keeps_refl].
      subst sessionId. intros [= <-]. exists session. split; [done|].
      assert (forall t, has_descriptor session t ->
                has_descriptor (record_capture env ctype storageResult session) t) as Hdesc.
      { intros t [d Hd]. unfold has_descriptor. simpl. rewrite lookup_insert.
        case_decide; eauto. }
      destruct (isSessionComplete _); by repeat split.
    + apply CaptureServiceSpec.processCapture_thrown in Hcall. simpl. rewrite Hcall.
      eauto using keeps_refl.
  - unfold completeSession.
    destruct (getSession sessionId sv) as [session|e]; [|eauto using keeps_refl].
    destruct (negb _); [eauto using keeps_refl|].
    simpl. intros [_ Hs]%lookup_delete_Some. eauto using keeps_refl.
  - rewrite CaptureServiceSpec.cleanup_lookup.
    destruct (activeSessions sv !! sid) as [s0|] eqn:Hs0; [|done].
    destruct (expired _ _ _); [done|]. intros [= <-]. eauto using keeps_refl.
Qed.

End Life.

(** X19. Over any sequence of calls that does not generate the id of a
    session again, the session, for as long as it is registered, keeps its
    id, OTP, resident and creation time; once its status is ['completed'] it
    stays so (also when the mode is changed afterwards); and a capture type
    that has a descriptor keeps having one (it can be replaced, never
    removed). *)
Theorem session_keeps (cfg : ImageStorage.Config) (rt : ImageStorage.Runtime)
    (ops : list Op) (sv : Service) (sid : string) (s s' : Session) :
  forallb (fun op => negb (restarts sid op)) ops = true ->
  activeSessions sv !! sid = Some s ->
  activeSessions (run cfg rt ops sv) !! sid = Some s' ->
  id s' = id s ∧ otp s' = otp s ∧ residentInfo s' = residentInfo s
  ∧ createdAt s' = createdAt s
  ∧ (status s = "completed" -> status s' = "completed")
  ∧ (forall t, has_descriptor s t -> has_descriptor s' t).
Proof.
  apply (run_respects cfg rt keeps (fun op => negb (restarts sid op)) sid).
  - apply keeps_refl.
  - apply keeps_trans.
  - intros sv0 op s0 Hop Hs0. by apply (step_keeps cfg rt sid sv0 op s0).
Qed.

Lemma session_keeps_witness :
  status (Fixture.session_of Fixture.sv_vehicle_after_capture) = "completed".
Proof.
  destruct (session_keeps Fixture.config Fixture.runtime
              [SetCaptureMode 1010 Fixture.sid "vehicle"]
              Fixture.sv_captured_without_mode Fixture.sid
              (Fixture.session_of Fixture.sv_captured_without_mode)
              (Fixture.session_of Fixture.sv_vehicle_after_capture))
    as (_ & _ & _ & _ & Hstatus & _); [by vm_compute..|].
  apply Hstatus. by vm_compute.
Defined.

(** *** Invariants *)

Section Invariants.
Context (cfg : ImageStorage.Config) (rt : ImageStorage.Runtime).

Lemma initial_inv : service_inv initial.
Proof. intros sid s Hs. cbn [initial activeSessions] in Hs. by rewrite lookup_empty in Hs. Qed.

Lemma capture_inv (env : CaptureEnv) (sid ctype : string)
    (storageResult : ImageStorage.StoreResult) (session : Session) :
  ctype ∈ ["person"; "vehicle"] ->
  session_inv sid session ->
  session_inv sid
    (if isSessionComplete (record_capture env ctype storageResult session)
     then mark_completed env (record_capture env ctype storageResult session)
     else record_capture env ctype storageResult session).
Proof.
  intros Htype [Hid Hshape Hstatus Hmode Hdone Hcap].
  assert (has_descriptor (record_capture env ctype storageResult session) ctype) as Hdesc.
  { eexists. simpl. apply lookup_insert_eq. }
  pose proof (CaptureServiceSpec.record_capture_wf env ctype storageResult session
                Htype Hshape) as Hwf.
  destruct (isSessionComplete _); split; simpl.
  - done.
  - exact Hwf.
  - by right.
  - done.
  - split; [by eexists|done].
  - intros _. by exists ctype.
  - done.
  - exact Hwf.
  - done.
  - done.
  - done.
  - intros _. by exists ctype.
Qed.

Lemma step_inv (sv : Service) (op : Op) : service_inv sv -> service_inv (step cfg rt sv op).
Proof.
  intros Hinv sid s.
  destruct op as [now_id now_created suffix lookup otp_arg
    | now sessionId mode_arg | env sessionId ctype buf | sessionId | now maxAge_arg];
    cbn [step].
  - unfold startCaptureSession. destruct otp_arg as [o|]; [|apply Hinv].
    case_decide; [apply Hinv|].
    destruct (lookup (trim o)) as [residentInfo|e]; [|apply Hinv].
    simpl. rewrite lookup_insert. case_decide as Hsid; [|apply Hinv].
    intros [= <-]. split; simpl.
    + done.
    + by apply CaptureServiceSpec.fresh_session_wf.
    + by left.
    + by left.
    + split; [done|]. by intros [? ?].
    + done.
  - unfold setCaptureMode, getSession.
    destruct (activeSessions sv !! sessionId) as [session|] eqn:Hs; [|apply Hinv].
    destruct (bool_decide (mode_arg ∈ ["pedestrian"; "vehicle"])) eqn:Hmode; [|apply Hinv].
    apply bool_decide_eq_true_1 in Hmode.
    simpl. rewrite lookup_insert. case_decide as Hsid; [|apply Hinv].
    subst sessionId. intros [= <-].
    destruct (Hinv _ _ Hs) as [Hid Hshape Hstatus _ Hdone Hcap].
    split; simpl; [done|exact Hshape|done| |done|exact Hcap].
    apply elem_of_cons in Hmode as [->|Hmode]; [by right; left|].
    apply list_elem_of_singleton in Hmode as ->. by right; right.
  - destruct (processCapture cfg rt env sessionId ctype buf sv) as [[r|e] sv'] eqn:Hcall.
    + destruct (processCapture_effect _ _ _ _ _ _ _ _ _ Hcall)
        as (session & storageResult & Hs & Htype & _ & _ & Hsessions).
      simpl. rewrite Hsessions, lookup_insert. case_decide as Hsid; [|apply Hinv].
      subst sessionId. intros [= <-]. apply capture_inv; [done|by apply Hinv].
    + apply CaptureServiceSpec.processCapture_thrown in Hcall. simpl. rewrite Hcall.
      apply Hinv.
  - unfold completeSession.
    destruct (getSession sessionId sv) as [session|e]; [|apply Hinv].
    destruct (negb _); [apply Hinv|].
    simpl. intros [_ Hs]%lookup_delete_Some. by apply Hinv.
  - rewrite CaptureServiceSpec.cleanup_lookup.
    destruct (activeSessions sv !! sid) as [s0|] eqn:Hs0; [|done].
    destruct (expired _ _ _); [done|]. intros [= <-]. by apply Hinv.
Qed.

End Invariants.

(** X20. Every session the service holds, after any sequence of calls from
    the start, is registered under its own [id]; its [captures] has exactly
    the keys [person] and [vehicle]; its status is ['active'] or
    ['completed']; its mode is unset, ['pedestrian'] or ['vehicle'];
    [completedAt] is set exactly when the status is ['completed']; and a
    completed session has at least one capture descriptor. *)
Theorem reachable_session_invariant (cfg : ImageStorage.Config)
    (rt : ImageStorage.Runtime) (ops : list Op) (sid : string) (s : Session) :
  activeSessions (run cfg rt ops initial) !! sid = Some s ->
  id s = sid
  ∧ session_wf s
  ∧ (status s = "active" ∨ status s = "completed")
  ∧ (mode s = None ∨ mode s = Some "pedestrian" ∨ mode s = Some "vehicle")
  ∧ (status s = "completed" <-> is_Some (completedAt s))
  ∧ (status s = "completed" -> exists t, has_descriptor s t).
Proof.
  assert (forall sv, service_inv sv -> service_inv (run cfg rt ops sv)) as Hrun.
  { induction ops as [|op ops IH]; intros sv Hinv; [done|].
    apply IH. by apply step_inv. }
  intros Hs. by destruct (Hrun initial initial_inv sid s Hs).
Qed.

Lemma reachable_session_invariant_witness :
  id (Fixture.session_of Fixture.sv_pedestrian_done) = Fixture.sid
  ∧ is_Some (completedAt (Fixture.session_of Fixture.sv_pedestrian_done)).
Proof.
  destruct (reachable_session_invariant Fixture.config Fixture.runtime
              [StartCaptureSession 1000 1000 "k3x9q2m1z" Fixture.directory (Some "123456");
               SetCaptureMode 1001 Fixture.sid "pedestrian";
               ProcessCapture (Fixture.capture_env 1002 "img-1") Fixture.sid "person"
                 Fixture.image]
              Fixture.sid (Fixture.session_of Fixture.sv_pedestrian_done))
    as (Hid & _ & _ & _ & Hdone & _); [by vm_compute|].
  split; [done|]. apply Hdone. by vm_compute.
Defined.

(** *** A whole session *)

Lemma two_descriptors (c : gmap string (option CaptureDescriptor)) (a b : CaptureDescriptor) :
  c !! "person" = Some (Some a) -> c !! "vehicle" = Some (Some b) ->
  (forall k, is_Some (c !! k) -> k = "person" ∨ k = "vehicle") ->
  descriptors_present c = 2%nat.
Proof.
  intros Hp Hv Hkeys.
  assert (c = <["person" := Some a]> (<["vehicle" := Some b]> ∅)) as ->.
  { apply map_eq. intros k.
    destruct (decide (k = "person")) as [->|Hnp]; [by rewrite lookup_insert_eq|].
    rewrite lookup_insert_ne by done.
    destruct (decide (k = "vehicle")) as [->|Hnv]; [by rewrite lookup_insert_eq|].
    rewrite lookup_insert_ne, lookup_empty by done.
    destruct (c !! k) eqn:Hk; [|done]. destruct (Hkeys k); [by eexists|done..]. }
  unfold descriptors_present.
  rewrite map_filter_insert_True by (simpl; by eexists).
  rewrite map_filter_insert_True by (simpl; by eexists).
  rewrite map_filter_empty.
  rewrite map_size_insert_None by (by rewrite lookup_insert_ne).
  by rewrite map_size_insert_None.
Qed.

Lemma vehicle_complete_with_both (s : Session) (a b : CaptureDescriptor) :
  mode s = Some "vehicle" ->
  captures s !! "person" = Some (Some a) ->
  captures s !! "vehicle" = Some (Some b) ->
  isSessionComplete s = true ∧ forall c, getNextAction s c = "complete_session".
Proof.
  intros Hmode Ha Hb.
  assert (getAvailableCaptures (Some "vehicle") = ["person"; "vehicle"]) as Havail
    by reflexivity.
  split.
  - unfold isSessionComplete. rewrite Hmode, Havail. cbn [forallb].
    unfold capture_not_null. by rewrite Ha, Hb.
  - intros c. unfold getNextAction. rewrite Hmode, Havail.
    rewrite !filter_cons, filter_nil. unfold capture_is_null, capture_not_null.
    by rewrite Ha, Hb.
Qed.

(** X21. A session in vehicle mode on which the two capture types are
    recorded, in either order, is complete: the second [processCapture]
    answers [sessionComplete] and ['complete_session'], and [completeSession]
    then returns a summary with mode ['vehicle'] and [totalCaptures = 2] and
    unregisters the session. *)
Theorem vehicle_session_completes (cfg : ImageStorage.Config) (rt : ImageStorage.Runtime)
    (env1 env2 : CaptureEnv) (sid t1 t2 : string) (buf1 buf2 : Buffer)
    (sv sv1 sv2 : Service) (s : Session) (r1 r2 : CaptureResult) :
  activeSessions sv !! sid = Some s ->
  session_wf s ->
  mode s = Some "vehicle" ->
  t1 <> t2 ->
  processCapture cfg rt env1 sid t1 buf1 sv = (Returned r1, sv1) ->
  processCapture cfg rt env2 sid t2 buf2 sv1 = (Returned r2, sv2) ->
  sessionComplete r2 = true
  /\ nextAction r2 = "complete_session"
  /\ exists summary sv3,
       completeSession sid sv2 = (Returned summary, sv3)
       /\ sum_mode summary = Some "vehicle"
       /\ totalCaptures summary = 2%nat
       /\ activeSessions sv3 !! sid = None.
Proof.
  intros Hs Hwf Hmode Hne H1 H2.
  destruct (processCapture_effect _ _ _ _ _ _ _ _ _ H1)
    as (s0 & res1 & Hs0 & Ht1 & _ & _ & Hsv1).
  rewrite Hs in Hs0. injection Hs0 as <-.
  set (s1 := if isSessionComplete (record_capture env1 t1 res1 s)
             then mark_completed env1 (record_capture env1 t1 res1 s)
             else record_capture env1 t1 res1 s) in *.
  destruct (processCapture_effect _ _ _ _ _ _ _ _ _ H2)
    as (s1' & res2 & Hs1 & Ht2 & _ & -> & Hsv2).
  rewrite Hsv1, lookup_insert_eq in Hs1. injection Hs1 as <-.
  assert (captures s1 = <[t1 := Some {| imageId := ImageStorage.fileId res1;
                                        filename := ImageStorage.sr_filename res1;
                                        timestamp := now_metadata env1;
                                        fileSize := ImageStorage.fileSize
                                                      (ImageStorage.metadata res1) |}]>
                          (captures s)) as Hcap1.
  { unfold s1. by destruct (isSessionComplete _). }
  assert (mode s1 = Some "vehicle") as Hmode1.
  { unfold s1. by destruct (isSessionComplete _). }
  assert (session_wf (record_capture env2 t2 res2 s1)) as Hwf2.
  { apply CaptureServiceSpec.record_capture_wf; [done|].
    unfold s1. destruct (isSessionComplete _);
      by apply CaptureServiceSpec.record_capture_wf. }
  assert (exists a b, captures (record_capture env2 t2 res2 s1) !! "person" = Some (Some a)
                      ∧ captures (record_capture env2 t2 res2 s1) !! "vehicle"
                        = Some (Some b)) as (a & b & Ha & Hb).
  { simpl. rewrite Hcap1.
    apply elem_of_cons in Ht1 as [->|Ht1]; apply elem_of_cons in Ht2 as [->|Ht2];
      try done; try apply list_elem_of_singleton in Ht1 as ->;
      try apply list_elem_of_singleton in Ht2 as ->; try done.
    - eexists _, _. split; [|apply lookup_insert_eq].
      rewrite lookup_insert_ne by done. apply lookup_insert_eq.
    - eexists _, _. split; [apply lookup_insert_eq|].
      rewrite lookup_insert_ne by done. apply lookup_insert_eq. }
  destruct (vehicle_complete_with_both (record_capture env2 t2 res2 s1) a b Hmode1 Ha Hb)
    as [Hcomplete _].
  destruct (vehicle_complete_with_both
              (mark_completed env2 (record_capture env2 t2 res2 s1)) a b Hmode1 Ha Hb)
    as [_ Hnext].
  rewrite Hcomplete in *. cbn [sessionComplete nextAction].
  split; [done|]. split; [apply Hnext|].
  unfold completeSession, getSession. rewrite Hsv2, lookup_insert_eq.
  rewrite bool_decide_eq_true_2 by done. cbn [negb].
  eexists _, _. split; [reflexivity|]. cbn [sum_mode totalCaptures].
  split; [exact Hmode1|]. split; [|apply lookup_delete_eq].
  rewrite CaptureServiceSpec.count_captures_present.
  apply (two_descriptors _ a b Ha Hb). by destruct Hwf2 as (_ & _ & Hkeys).
Qed.

Lemma vehicle_session_completes_witness :
  exists summary sv3,
    completeSession Fixture.sid Fixture.sv_vehicle_both = (Returned summary, sv3)
    /\ sum_mode summary = Some "vehicle"
    /\ totalCaptures summary = 2%nat
    /\ activeSessions sv3 !! Fixture.sid = None.
Proof.
  destruct (vehicle_session_completes Fixture.config Fixture.runtime
              (Fixture.capture_env 1002 "img-1") (Fixture.capture_env 1010 "img-2")
              Fixture.sid "vehicle" "person" Fixture.image Fixture.image
              (Fixture.sv_mode "vehicle") Fixture.sv_vehicle_first Fixture.sv_vehicle_both
              (Fixture.session_of (Fixture.sv_mode "vehicle"))
              (Build_CaptureResult true "vehicle" "img-1" false "capture_person")
              (Build_CaptureResult true "person" "img-2" true "complete_session"))
    as (_ & _ & H); try by vm_compute.
  apply (CaptureServiceSpec.run_wf Fixture.config Fixture.runtime
           [StartCaptureSession 1000 1000 "k3x9q2m1z" Fixture.directory (Some "123456");
            SetCaptureMode 1001 Fixture.sid "vehicle"]
           initial CaptureServiceSpec.initial_wf Fixture.sid).
  by vm_compute.
Defined.

(** *** The stored images *)

(** X22. The images outlive the sessions: every call other than
    [processCapture] leaves the storage exactly as it is; in particular
    [completeSession] and the expiry sweep, which remove a session, remove
    none of its images. *)
Theorem sessions_end_without_touching_images (cfg : ImageStorage.Config)
    (rt : ImageStorage.Runtime) (sv : Service) (op : Op) :
  (forall env sid ctype buf, op <> ProcessCapture env sid ctype buf) ->
  imageStorage (step cfg rt sv op) = imageStorage sv.
Proof.
  intros Hop.
  destruct op as [now_id now_created suffix lookup otp_arg
    | now sessionId mode_arg | env sessionId ctype buf | sessionId | now maxAge_arg];
    cbn [step].
  - unfold startCaptureSession. destruct otp_arg as [o|]; [|done].
    case_decide; [done|]. by destruct (lookup (trim o)).
  - unfold setCaptureMode. destruct (getSession sessionId sv); [|done].
    by destruct (negb _).
  - by destruct (Hop env sessionId ctype buf).
  - unfold completeSession. destruct (getSession sessionId sv); [|done].
    by destruct (negb _).
  - done.
Qed.

Lemma sessions_end_without_touching_images_witness :
  imageStorage (step Fixture.config Fixture.runtime Fixture.sv_pedestrian_done
                  (CompleteSession Fixture.sid))
  = imageStorage Fixture.sv_pedestrian_done
  /\ activeSessions (step Fixture.config Fixture.runtime Fixture.sv_pedestrian_done
                       (CompleteSession Fixture.sid)) !! Fixture.sid = None.
Proof.
  split; [|by vm_compute].
  by apply (sessions_end_without_touching_images Fixture.config Fixture.runtime
              Fixture.sv_pedestrian_done (CompleteSession Fixture.sid)).
Defined.

(** *** The mode check and the unset mode *)

(** X23. The mode check of [processCapture] rejects one combination only, a
    ['vehicle'] capture on a session in pedestrian mode, with the message
    "Vehicle capture not allowed in pedestrian mode" (quoted in lower case by
    the documentation) and without any change. For every other combination
    of mode and valid capture type [processCapture] returns exactly when the
    storage call returns. *)
Theorem mode_check_rejects_vehicle_in_pedestrian_only (cfg : ImageStorage.Config)
    (rt : ImageStorage.Runtime) (env : CaptureEnv) (sid : string) (buf : Buffer)
    (sv : Service) (session : Session) :
  getSession sid sv = Returned session ->
  (mode session = Some "pedestrian" ->
     processCapture cfg rt env sid "vehicle" buf sv
       = (Thrown (Error "Vehicle capture not allowed in pedestrian mode"), sv)
     /\ toLowerCase "Vehicle capture not allowed in pedestrian mode"
        = "vehicle capture not allowed in pedestrian mode")
  /\ (forall ctype,
        ctype ∈ ["person"; "vehicle"] ->
        ¬ (mode session = Some "pedestrian" ∧ ctype = "vehicle") ->
        succeeded (fst (processCapture cfg rt env sid ctype buf sv))
        = succeeded (fst (ImageStorage.storeImage cfg rt (store_env env) buf
                            (capture_metadata env sid ctype session) (imageStorage sv)))).
Proof.
  intros Hget. split.
  - intros Hmode. unfold processCapture. by rewrite Hget, Hmode.
  - intros ctype Htype Hcheck.
    rewrite (CaptureServiceSpec.processCapture_past_checks cfg rt env sid ctype buf sv
               session Hget Htype Hcheck).
    by destruct (ImageStorage.storeImage _ _ _ _ _ _) as [[storageResult|e] disk'].
Qed.

Lemma mode_check_rejects_vehicle_in_pedestrian_only_witness :
  processCapture Fixture.config Fixture.node_runtime (Fixture.capture_env 1002 "img-1")
    Fixture.sid "vehicle" Fixture.image (Fixture.sv_mode "pedestrian")
  = (Thrown (Error "Vehicle capture not allowed in pedestrian mode"),
     Fixture.sv_mode "pedestrian").
Proof.
  destruct (mode_check_rejects_vehicle_in_pedestrian_only Fixture.config
              Fixture.node_runtime (Fixture.capture_env 1002 "img-1") Fixture.sid
              Fixture.image (Fixture.sv_mode "pedestrian")
              (Fixture.session_of (Fixture.sv_mode "pedestrian")))
    as [Hvehicle _]; [by vm_compute|].
  apply Hvehicle. by vm_compute.
Defined.

(** X24. Whenever the storage call of a [processCapture] returns (as the
    stubbed storage of the orchestrator's tests does) on a live session whose
    mode was never selected, no capture type is required, so the session is
    at once marked ['completed'] with [completedAt] stamped, and the call
    answers [sessionComplete = true] and [nextAction = 'complete_session']. *)
Theorem unset_mode_completes_when_stored (cfg : ImageStorage.Config)
    (rt : ImageStorage.Runtime) (env : CaptureEnv) (sid ctype : string) (buf : Buffer)
    (sv : Service) (session : Session) (storageResult : ImageStorage.StoreResult)
    (disk' : ImageStorage.Disk) :
  getSession sid sv = Returned session ->
  mode session = None ->
  ctype ∈ ["person"; "vehicle"] ->
  ImageStorage.storeImage cfg rt (store_env env) buf
    (capture_metadata env sid ctype session) (imageStorage sv)
    = (Returned storageResult, disk') ->
  exists r sv' session',
    processCapture cfg rt env sid ctype buf sv = (Returned r, sv')
    /\ getAvailableCaptures (mode session) = []
    /\ getSession sid sv' = Returned session'
    /\ has_descriptor session' ctype
    /\ status session' = "completed"
    /\ completedAt session' = Some (now_completed env)
    /\ sessionComplete r = true
    /\ nextAction r = "complete_session".
Proof.
  intros Hget Hmode Htype Hstore.
  rewrite (CaptureServiceSpec.processCapture_past_checks cfg rt env sid ctype buf sv
             session Hget Htype).
  - rewrite Hstore. cbv zeta.
    assert (isSessionComplete (record_capture env ctype storageResult session) = true)
      as Hcomplete.
    { unfold isSessionComplete. simpl. by rewrite Hmode. }
    rewrite Hcomplete. eexists _, _, _. split; [reflexivity|].
    split; [by rewrite Hmode|].
    split; [unfold getSession; simpl; by rewrite lookup_insert_eq|].
    split; [eexists; simpl; apply lookup_insert_eq|].
    repeat split. unfold getNextAction. simpl. by rewrite Hmode.
  - intros [H _]. by rewrite Hmode in H.
Qed.

Lemma unset_mode_completes_when_stored_witness :
  exists r sv' session',
    processCapture Fixture.config Fixture.runtime (Fixture.capture_env 1002 "img-1")
      Fixture.sid "person" Fixture.image Fixture.sv_started = (Returned r, sv')
    /\ getAvailableCaptures (mode (Fixture.session_of Fixture.sv_started)) = []
    /\ getSession Fixture.sid sv' = Returned session'
    /\ has_descriptor session' "person"
    /\ status session' = "completed"
    /\ completedAt session' = Some 1004
    /\ sessionComplete r = true
    /\ nextAction r = "complete_session".
Proof.
  apply (unset_mode_completes_when_stored Fixture.config Fixture.runtime
           (Fixture.capture_env 1002 "img-1") Fixture.sid "person" Fixture.image
           Fixture.sv_started (Fixture.session_of Fixture.sv_started)
           Fixture.captured_result
           (snd (ImageStorage.storeImage Fixture.config Fixture.runtime
                   (Fixture.store_env_ok "img-1") Fixture.image
                   (capture_metadata (Fixture.capture_env 1002 "img-1") Fixture.sid
                      "person" (Fixture.session_of Fixture.sv_started))
                   ImageStorage.empty_disk)));
    [by vm_compute|by vm_compute|apply elem_of_cons; by left|by vm_compute].
Defined.

(** *** The service on [node:crypto] *)

Section Shipped.
Context (cfg : ImageStorage.Config) (rt : ImageStorage.Runtime)
  (Hnode : ImageStorage.NodeCrypto rt).

(** A call of [processCapture] throws and changes nothing. *)
Lemma processCapture_node_crypto (env : CaptureEnv) (sid ctype : string) (buf : Buffer)
    (sv : Service) :
  exists e, processCapture cfg rt env sid ctype buf sv = (Thrown e, sv).
Proof.
  unfold processCapture.
  destruct (getSession sid sv) as [session|e]; [|by eexists].
  destruct (negb _); [by eexists|]. destruct (_ && _); [by eexists|].
  destruct (ImageStorageSpec.storeImage_node_crypto cfg rt Hnode (store_env env) buf
              (capture_metadata env sid ctype session) (imageStorage sv)) as [e He].
  rewrite He. exists e. by destruct sv.
Qed.

Lemma step_pristine (sv : Service) (op : Op) :
  service_pristine sv -> service_pristine (step cfg rt sv op).
Proof.
  intros [Hsessions Hdisk].
  destruct op as [now_id now_created suffix lookup otp_arg
    | now sessionId mode_arg | env sessionId ctype buf | sessionId | now maxAge_arg];
    cbn [step].
  - unfold startCaptureSession. destruct otp_arg as [o|]; [|done].
    case_decide; [done|].
    destruct (lookup (trim o)) as [residentInfo|e]; [|done].
    split; [|done]. intros sid s. simpl. rewrite lookup_insert.
    case_decide as Hsid; [|apply Hsessions]. by intros [= <-].
  - unfold setCaptureMode, getSession.
    destruct (activeSessions sv !! sessionId) as [session|] eqn:Hs; [|done].
    destruct (negb _); [done|].
    split; [|done]. intros sid s. simpl. rewrite lookup_insert.
    case_decide as Hsid; [|apply Hsessions]. intros [= <-]. apply (Hsessions _ _ Hs).
  - destruct (processCapture_node_crypto env sessionId ctype buf sv) as [e He].
    by rewrite He.
  - unfold completeSession, getSession.
    destruct (activeSessions sv !! sessionId) as [session|] eqn:Hs; [|done].
    destruct (Hsessions _ _ Hs) as (Hstatus & _).
    by rewrite Hstatus.
  - split; [|done]. intros sid s. rewrite CaptureServiceSpec.cleanup_lookup.
    destruct (activeSessions sv !! sid) as [s0|] eqn:Hs0; [|done].
    destruct (expired _ _ _); [done|]. intros [= <-]. by apply (Hsessions sid).
Qed.

Lemma run_pristine (ops : list Op) (sv : Service) :
  service_pristine sv -> service_pristine (run cfg rt ops sv).
Proof.
  revert sv. induction ops as [|op ops IH]; intros sv Hsv; [done|].
  apply IH. by apply step_pristine.
Qed.

End Shipped.

(** X25. With the cipher calls of [node:crypto], no capture is ever recorded:
    after any sequence of calls from the start every live session has status
    ['active'], both captures [null] and no [completedAt], and the storage
    is empty; every [processCapture] throws and changes nothing, and so does
    every [completeSession]: no session can be completed. *)
Theorem no_capture_is_ever_recorded (cfg : ImageStorage.Config)
    (rt : ImageStorage.Runtime) (Hnode : ImageStorage.NodeCrypto rt) (ops : list Op) :
  (forall sid s, activeSessions (run cfg rt ops initial) !! sid = Some s ->
     status s = "active"
     ∧ captures s !! "person" = Some None
     ∧ captures s !! "vehicle" = Some None
     ∧ completedAt s = None)
  /\ imageStorage (run cfg rt ops initial) = ImageStorage.empty_disk
  /\ (forall env sid ctype buf, exists e,
        processCapture cfg rt env sid ctype buf (run cfg rt ops initial)
        = (Thrown e, run cfg rt ops initial))
  /\ (forall sid, exists e,
        completeSession sid (run cfg rt ops initial) = (Thrown e, run cfg rt ops initial)).
Proof.
  assert (service_pristine (run cfg rt ops initial)) as [Hsessions Hdisk].
  { apply run_pristine; [done|]. split; [|done]. intros sid s Hs.
    cbn [initial activeSessions] in Hs. by rewrite lookup_empty in Hs. }
  split; [exact Hsessions|]. split; [exact Hdisk|]. split.
  - intros env sid ctype buf. by apply processCapture_node_crypto.
  - intros sid. unfold completeSession, getSession.
    destruct (activeSessions (run cfg rt ops initial) !! sid) as [session|] eqn:Hs;
      [|by eexists].
    destruct (Hsessions _ _ Hs) as (Hstatus & _). rewrite Hstatus. by eexists.
Qed.

Lemma no_capture_is_ever_recorded_witness :
  status (Fixture.session_of
            (run Fixture.config Fixture.node_runtime
               [StartCaptureSession 1000 1000 "k3x9q2m1z" Fixture.directory (Some "123456");
                SetCaptureMode 1001 Fixture.sid "pedestrian";
                ProcessCapture (Fixture.capture_env 1002 "img-1") Fixture.sid "person"
                  Fixture.image]
               initial)) = "active".
Proof.
  destruct (no_capture_is_ever_recorded Fixture.config Fixture.node_runtime
              ImageStorageSpec.fixture_node_crypto
              [StartCaptureSession 1000 1000 "k3x9q2m1z" Fixture.directory (Some "123456");
               SetCaptureMode 1001 Fixture.sid "pedestrian";
               ProcessCapture (Fixture.capture_env 1002 "img-1") Fixture.sid "person"
                 Fixture.image]) as [Hsessions _].
  by destruct (Hsessions Fixture.sid _ ltac:(by vm_compute)) as [Hstatus _].
Defined.

(** *** The expiry sweep *)

(** X26. The sweep removes a session exactly when its age [now - createdAt]
    is greater than [maxAge], whatever its status, keeps every other session
    as it is, and returns the number of sessions it removed; when every live
    session is older than [maxAge], none is left. *)
Theorem cleanupExpiredSessions_sweep (now maxAge : Z) (sv : Service) :
  (forall sid s, activeSessions sv !! sid = Some s ->
     activeSessions (snd (cleanupExpiredSessions now (Some maxAge) sv)) !! sid
     = if decide (maxAge < now - createdAt s) then None else Some s)
  /\ (forall sid, activeSessions sv !! sid = None ->
        activeSessions (snd (cleanupExpiredSessions now (Some maxAge) sv)) !! sid = None)
  /\ (fst (cleanupExpiredSessions now (Some maxAge) sv)
      + getActiveSessionsCount (snd (cleanupExpiredSessions now (Some maxAge) sv))
      = getActiveSessionsCount sv)%nat
  /\ ((forall sid s, activeSessions sv !! sid = Some s -> createdAt s < now - maxAge) ->
        getActiveSessionsCount (snd (cleanupExpiredSessions now (Some maxAge) sv)) = 0%nat
        /\ fst (cleanupExpiredSessions now (Some maxAge) sv) = getActiveSessionsCount sv).
Proof.
  split; [|split; [|split]].
  - intros sid s Hs. rewrite CaptureServiceSpec.cleanup_lookup, Hs. simpl. unfold expired.
    destruct (Z.ltb_spec maxAge (now - createdAt s)); case_decide; done || lia.
  - intros sid Hs. by rewrite CaptureServiceSpec.cleanup_lookup, Hs.
  - apply CaptureServiceSpec.cleanup_count.
  - intros Hold.
    assert (getActiveSessionsCount (snd (cleanupExpiredSessions now (Some maxAge) sv)) = 0%nat)
      as Hzero.
    { unfold getActiveSessionsCount. apply map_size_empty_iff, map_eq. intros sid.
      rewrite CaptureServiceSpec.cleanup_lookup, lookup_empty.
      destruct (activeSessions sv !! sid) as [s|] eqn:Hs; [|done].
      simpl. unfold expired. apply Hold in Hs.
      destruct (Z.ltb_spec maxAge (now - createdAt s)); [done|lia]. }
    split; [done|]. pose proof (CaptureServiceSpec.cleanup_count now (Some maxAge) sv) as Hc.
    rewrite Hzero in Hc. lia.
Qed.

Lemma cleanupExpiredSessions_sweep_witness :
  getActiveSessionsCount (snd (cleanupExpiredSessions 1001 (Some 0) Fixture.sv_started))
  = 0%nat
  /\ fst (cleanupExpiredSessions 1001 (Some 0) Fixture.sv_started) = 1%nat.
Proof.
  destruct (cleanupExpiredSessions_sweep 1001 0 Fixture.sv_started) as (_ & _ & _ & H).
  destruct H as [Hzero Hcount].
  - intros sid s Hs.
    assert (activeSessions Fixture.sv_started
            = {[Fixture.sid := Fixture.session_of Fixture.sv_started]}) as Hmap
      by (by vm_compute).
    rewrite Hmap in Hs. apply lookup_singleton_Some in Hs as [_ <-]. by vm_compute.
  - split; [done|]. rewrite Hcount. by vm_compute.
Defined.

(** X27. Called without argument, [cleanupExpiredSessions] removes exactly
    the sessions created more than 1 800 000 ms before now and keeps the
    others as they are. A second sweep at the same instant with the same
    limit removes nothing and returns [0]. The sweep does not touch the
    stored images. *)
Theorem cleanupExpiredSessions_default (now : Z) (sv : Service) :
  (forall sid s, activeSessions sv !! sid = Some s ->
     activeSessions (snd (cleanupExpiredSessions now None sv)) !! sid
     = if decide (1800000 < now - createdAt s) then None else Some s)
  /\ (forall maxAge_arg,
        fst (cleanupExpiredSessions now maxAge_arg
               (snd (cleanupExpiredSessions now maxAge_arg sv))) = 0%nat
        ∧ activeSessions (snd (cleanupExpiredSessions now maxAge_arg
                                 (snd (cleanupExpiredSessions now maxAge_arg sv))))
          = activeSessions (snd (cleanupExpiredSessions now maxAge_arg sv)))
  /\ (forall maxAge_arg,
        imageStorage (snd (cleanupExpiredSessions now maxAge_arg sv)) = imageStorage sv).
Proof.
  split; [|split].
  - intros sid s Hs. rewrite CaptureServiceSpec.cleanup_lookup, Hs.
    cbn [default]. unfold expired, default_maxAge.
    destruct (Z.ltb_spec (30 * 60 * 1000) (now - createdAt s)); case_decide; done || lia.
  - intros maxAge_arg.
    set (sv1 := snd (cleanupExpiredSessions now maxAge_arg sv)).
    assert (activeSessions (snd (cleanupExpiredSessions now maxAge_arg sv1))
            = activeSessions sv1) as Hsame.
    { apply map_eq. intros sid. rewrite CaptureServiceSpec.cleanup_lookup.
      destruct (activeSessions sv1 !! sid) as [s|] eqn:Hs; [|done].
      unfold sv1 in Hs. rewrite CaptureServiceSpec.cleanup_lookup in Hs.
      destruct (activeSessions sv !! sid) as [s0|]; [|done].
      destruct (expired now _ s0) eqn:Hexp; [done|]. injection Hs as <-.
      by rewrite Hexp. }
    split; [|done].
    pose proof (CaptureServiceSpec.cleanup_count now maxAge_arg sv1) as Hcount.
    unfold getActiveSessionsCount in Hcount. rewrite Hsame in Hcount. lia.
  - done.
Qed.

End CaptureServiceLaws.

(** ** Properties of the directory client and of the start-up *)
Module ClientLaws.
Import EstateMateClient.

Lemma truthy_spec (a : option string) : truthy a = true <-> exists s, a = Some s ∧ s <> "".
Proof.
  unfold truthy. destruct a as [s|]; [|split; [done|by intros (? & ? & ?)]].
  destruct (decide (s = "")) as [->|Hne].
  - split; [done|]. by intros (? & [= <-] & ?).
  - rewrite bool_decide_eq_false_2 by done. split; [eauto|done].
Qed.

(** X28. [validateConfig] of a client built from the environment answers
    [true] exactly when [ESTATE_MATE_API_KEY] is set and not empty: the base
    URL falls back to the default when the variable is unset or empty, so it
    is never empty and its check never fails. *)
Theorem validateConfig_needs_only_key (env_url env_key : option string) :
  (validateConfig (create env_url env_key) = true
   <-> exists key, env_key = Some key ∧ key <> "")
  /\ baseURL (create env_url env_key) <> ""
  /\ (env_url = None ∨ env_url = Some "" ->
      baseURL (create env_url env_key) = "https://api.estatemate.com").
Proof.
  assert (baseURL (create env_url env_key) <> "") as Hurl.
  { unfold create, or_else. simpl. destruct env_url as [u|]; [|done].
    by case_decide. }
  split; [|split; [done|]].
  - rewrite <- truthy_spec. unfold validateConfig, config_errors.
    change (apiKey (create env_url env_key)) with env_key.
    assert (truthy (Some (baseURL (create env_url env_key))) = true) as ->.
    { apply truthy_spec. eauto. }
    destruct (truthy env_key); simpl; split; done.
  - intros [->| ->]; reflexivity.
Qed.


Import Startup.

(** X30. [initialize] never fails: it always answers [true] and leaves a
    directory client in place. The client is the live one exactly when the
    constructor returned it, its API key is set and not empty and the health
    request went through; in every other case it is the demo client and
    [demoMode] is set. [initialize] never clears [demoMode]: a start-up that
    connects after an earlier one fell back uses the live client while
    [getStatus] keeps reporting [demoMode] and [apiConnected = false]. After
    [initialize], [getStatus] returns, with the number of live sessions and
    [apiConnected] the negation of [demoMode]. *)
Theorem initialize_never_fails (ctor : Outcome Client) (health : Outcome unit) (b : Boot) :
  fst (initialize ctor health b) = true
  /\ is_Some (estateMateClient (snd (initialize ctor health b)))
  /\ (forall c,
       estateMateClient (snd (initialize ctor health b)) = Some (Live c)
       <-> ctor = Returned c
           ∧ (exists key, apiKey c = Some key ∧ key <> "")
           ∧ baseURL c <> ""
           ∧ exists u, health = Returned u)
  /\ (estateMateClient (snd (initialize ctor health b)) = Some Demo ->
      demoMode (snd (initialize ctor health b)) = true)
  /\ (demoMode b = true -> demoMode (snd (initialize ctor health b)) = true)
  /\ (forall c now sv,
       demoMode b = true ->
       estateMateClient (snd (initialize ctor health b)) = Some (Live c) ->
       exists st,
         getStatus now (snd (initialize ctor health b)) sv = Returned st
         ∧ apiConnected st = false
         ∧ status_demoMode st = true
         ∧ demoOTPs_listed st = false)
  /\ (forall now sv, exists st,
       getStatus now (snd (initialize ctor health b)) sv = Returned st
       ∧ activeSessions st = CaptureService.getActiveSessionsCount sv
       ∧ apiConnected st = negb (status_demoMode st)).
Proof.
  assert (forall c, validateConfig c = true
                    <-> (exists key, apiKey c = Some key ∧ key <> "") ∧ baseURL c <> "")
    as Hvalid.
  { intros c. rewrite <- truthy_spec. unfold validateConfig, config_errors.
    destruct (truthy (apiKey c)); destruct (decide (baseURL c = "")) as [Hu|Hu];
      cbn [truthy].
    - rewrite bool_decide_eq_true_2 by done. simpl. split; [done|]. by intros [_ ?].
    - rewrite bool_decide_eq_false_2 by done. simpl. split; done.
    - case_decide as Hlen; [split; [done|by intros [? _]]|].
      exfalso. apply Hlen. simpl. lia.
    - case_decide as Hlen; [split; [done|by intros [? _]]|].
      exfalso. apply Hlen. simpl. lia. }
  assert (forall b' now sv,
            is_Some (estateMateClient b') ->
            exists st, getStatus now b' sv = Returned st
                       ∧ activeSessions st = CaptureService.getActiveSessionsCount sv
                       ∧ apiConnected st = negb (status_demoMode st)) as Hstatus.
  { intros b' now sv [k Hk]. unfold getStatus. rewrite Hk.
    destruct (demoMode b') eqn:Hd; [destruct k|]; eexists; (split; [reflexivity|]);
      simpl; by rewrite ?Hd. }
  assert (forall b' c now sv,
            demoMode b' = true -> estateMateClient b' = Some (Live c) ->
            exists st, getStatus now b' sv = Returned st ∧ apiConnected st = false
                       ∧ status_demoMode st = true ∧ demoOTPs_listed st = false) as Hsticky.
  { intros b' c now sv Hd Hk. unfold getStatus. rewrite Hd, Hk.
    eexists. split; [reflexivity|]. done. }
  unfold initialize. destruct ctor as [c0|e]; simpl.
  - destruct (validateConfig c0) eqn:Hv; simpl.
    + apply Hvalid in Hv as [Hkey Hurl].
      destruct health as [u|e]; simpl.
      * split; [done|]. split; [by eexists|]. split.
        { intros c. split.
          - intros [= <-]. repeat split; eauto.
          - by intros ([= <-] & _). }
        split; [done|]. split; [done|]. split.
        { intros c now sv Hb Hk. by apply (Hsticky _ c). }
        intros now sv. apply Hstatus. by eexists.
      * split; [done|]. split; [by eexists|]. split.
        { intros c. split; [done|]. by intros (_ & _ & _ & u & ?). }
        split; [done|]. split; [done|]. split; [done|].
        intros now sv. apply Hstatus. by eexists.
    + split; [done|]. split; [by eexists|]. split.
      { intros c. split; [done|]. intros ([= <-] & Hkey & Hurl & _).
        assert (validateConfig c0 = true) as Hv' by (by apply Hvalid).
        congruence. }
      split; [done|]. split; [done|]. split; [done|].
      intros now sv. apply Hstatus. by eexists.
  - split; [done|]. split; [by eexists|]. split.
    { intros c. split; [done|]. by intros (? & _). }
    split; [done|]. split; [done|]. split; [done|].
    intros now sv. apply Hstatus. by eexists.
Qed.

End ClientLaws.
